(** * cagent: the CPU watcher and its rolling time series

    A shallow embedding of the [cagent] package's CPU watcher
    ([TimeSeriesAverage], [CPUWatcher]) and the properties of its
    sampling, pruning and reporting code, followed by the [raid]
    package's parser of /proc/mdstat.

    Conventions.
    - Go's [float64] is Rocq's primitive binary64 [float]; every
      arithmetic operation is the IEEE 754 one.
    - Go's [int], [int64] and [time.Duration] are [Z], with the 64-bit
      wrap-around written out where the code multiplies.
    - [sync.Mutex] is a boolean: [true] when held.  A call that must
      acquire a held mutex does not return ([Blocked]).
    - Run-time panics (index out of range) are the outcome [Panicked].
    - The operating system (CPU times, load average) and the clock are
      explicit arguments.
    - Strings are strings of bytes. *)

From Stdlib Require Import ZArith Floats String Ascii List Lia.
From stdpp Require Import base option list gmap strings pretty sorting.

Local Open Scope string_scope.
Local Open Scope Z_scope.

(** ** Outcomes of a call *)

Inductive outcome (A : Type) : Type :=
  | Returned (a : A)
  | Panicked (msg : string)
  | Blocked.
Arguments Returned {A} a.
Arguments Panicked {A} msg.
Arguments Blocked {A}.

#[global] Instance outcome_ret : MRet outcome := fun A a => Returned a.
#[global] Instance outcome_bind : MBind outcome := fun A B k m =>
  match m with
  | Returned a => k a
  | Panicked msg => Panicked msg
  | Blocked => Blocked
  end.

(** ** Machine integers and float conversions *)

Module Num.

Definition minInt64 : Z := - 2 ^ 63.
Definition maxInt64 : Z := 2 ^ 63 - 1.

(** Two's complement wrap-around of 64-bit signed arithmetic. *)
Definition wrap64 (z : Z) : Z := (z + 2 ^ 63) mod 2 ^ 64 - 2 ^ 63.

(** [float64(n)] for an integer [n]: round to nearest, ties to even. *)
Definition float64_of_int (n : Z) : float :=
  SF2Prim (binary_normalize prec emax n 0 false).

(** The integer part of a finite float, truncated toward zero. *)
Definition trunc (f : float) : option Z :=
  match Prim2SF f with
  | S754_zero _ => Some 0
  | S754_finite s m e =>
      let a := match e with
               | Zneg p => Z.shiftr (Zpos m) (Zpos p)
               | _ => Z.shiftl (Zpos m) e
               end in
      Some (if s then - a else a)
  | _ => None
  end.

(** [int64(f)]: truncation toward zero.  When the value is not
    representable the Go specification leaves the result to the
    implementation; amd64 yields the minimal integer. *)
Definition int64_of_float (f : float) : Z :=
  match trunc f with
  | Some z => if (minInt64 <=? z) && (z <=? maxInt64) then z else minInt64
  | None => minInt64
  end.

End Num.

(** ** packages strings, strconv and fmt *)

Module strings.

(** The lower case of a byte of ASCII; a byte above 127 is kept. *)
Definition lowerByte (c : ascii) : ascii :=
  let n := nat_of_ascii c in
  if (65 <=? n)%nat && (n <=? 90)%nat then ascii_of_nat (n + 32) else c.

(** The two runes above 127 whose lower case is a letter of ASCII, in
    UTF-8: U+0130 (lower case [i]) and U+212A (lower case [k]). *)
Definition dottedI (a b : ascii) : bool :=
  (nat_of_ascii a =? 196)%nat && (nat_of_ascii b =? 176)%nat.

Definition kelvin (a b c : ascii) : bool :=
  (nat_of_ascii a =? 226)%nat && (nat_of_ascii b =? 132)%nat
  && (nat_of_ascii c =? 170)%nat.

(** [strings.ToLower].  The letters of ASCII are lowered, and so are
    the two runes above; every other byte above 127 is kept, where Go
    writes the lower case of its rune, bytes above 127 again.  The
    result is the one of Go whenever either is a string of ASCII, as
    the names are that [Once] compares it with. *)
Fixpoint ToLower (s : string) : string :=
  match s with
  | EmptyString => EmptyString
  | String a rest =>
      match rest with
      | String b rest' =>
          if dottedI a b then String "i" (ToLower rest')
          else
            match rest' with
            | String c rest'' =>
                if kelvin a b c then String "k" (ToLower rest'')
                else String (lowerByte a) (ToLower rest)
            | EmptyString => String (lowerByte a) (ToLower rest)
            end
      | EmptyString => String (lowerByte a) (ToLower rest)
      end
  end.

Definition HasPrefix (s pre : string) : bool := String.prefix pre s.

Fixpoint Join (elems : list string) (sep : string) : string :=
  match elems with
  | [] => ""
  | [e] => e
  | e :: rest => e ++ sep ++ Join rest sep
  end.

(** [s[n:]] for [n] within the string. *)
Fixpoint from (n : nat) (s : string) : string :=
  match n, s with
  | O, _ => s
  | S n', String _ rest => from n' rest
  | S _, EmptyString => EmptyString
  end.

(** [s[0:n]] for [n] within the string. *)
Fixpoint upto (n : nat) (s : string) : string :=
  match n, s with
  | O, _ => EmptyString
  | S n', String c rest => String c (upto n' rest)
  | S _, EmptyString => EmptyString
  end.

(** [strings.Split] for a separator of one byte: the pieces between
    the separators, at least one piece. *)
Fixpoint Split (s : string) (sep : ascii) : list string :=
  match s with
  | EmptyString => [EmptyString]
  | String c rest =>
      if Ascii.eqb c sep then EmptyString :: Split rest sep
      else match Split rest sep with
           | piece :: pieces => String c piece :: pieces
           | [] => [String c EmptyString]
           end
  end.

(** [strings.Index] for a substring of one byte: the index of its
    first occurrence, or -1. *)
Fixpoint Index (s : string) (c : ascii) : Z :=
  match s with
  | EmptyString => -1
  | String a rest =>
      if Ascii.eqb a c then 0
      else let i := Index rest c in
           if i <? 0 then -1 else i + 1
  end.

Fixpoint Contains (s substr : string) : bool :=
  String.prefix substr s
  || match s with
     | EmptyString => false
     | String _ rest => Contains rest substr
     end.

Definition TrimPrefix (s pre : string) : string :=
  if HasPrefix s pre then from (String.length pre) s else s.

(** The white space of ASCII: tab, line feed, vertical tab, form feed,
    carriage return and space. *)
Definition asciiSpace (c : ascii) : bool :=
  let n := nat_of_ascii c in
  ((9 <=? n)%nat && (n <=? 13)%nat) || (n =? 32)%nat.

(** The white space of Unicode above 127, in UTF-8.  Two bytes: U+0085
    and U+00A0.  Three bytes: U+1680, U+2000 to U+200A, U+2028, U+2029,
    U+202F, U+205F and U+3000. *)
Definition space2 (a b : ascii) : bool :=
  let x := nat_of_ascii a in
  let y := nat_of_ascii b in
  (x =? 194)%nat && ((y =? 133)%nat || (y =? 160)%nat).

Definition space3 (a b c : ascii) : bool :=
  let x := nat_of_ascii a in
  let y := nat_of_ascii b in
  let z := nat_of_ascii c in
  ((x =? 225)%nat && (y =? 154)%nat && (z =? 128)%nat)
  || ((x =? 226)%nat && (y =? 128)%nat
      && (((128 <=? z)%nat && (z <=? 138)%nat)
          || (z =? 168)%nat || (z =? 169)%nat || (z =? 175)%nat))
  || ((x =? 226)%nat && (y =? 129)%nat && (z =? 159)%nat)
  || ((x =? 227)%nat && (y =? 128)%nat && (z =? 128)%nat).

(** The white space at the head of the string is skipped rune by rune;
    a byte above 127 that starts no white space (any other rune, or a
    byte that is no UTF-8) stops the loop. *)
Fixpoint TrimLeft (s : string) : string :=
  match s with
  | EmptyString => EmptyString
  | String a rest =>
      if asciiSpace a then TrimLeft rest
      else
        match rest with
        | String b rest' =>
            if space2 a b then TrimLeft rest'
            else
              match rest' with
              | String c rest'' =>
                  if space3 a b c then TrimLeft rest'' else s
              | EmptyString => s
              end
        | EmptyString => s
        end
  end.

(** Whether the string is made of white space only. *)
Fixpoint allSpace (s : string) : bool :=
  match s with
  | EmptyString => true
  | String a rest =>
      if asciiSpace a then allSpace rest
      else
        match rest with
        | String b rest' =>
            if space2 a b then allSpace rest'
            else
              match rest' with
              | String c rest'' =>
                  if space3 a b c then allSpace rest'' else false
              | EmptyString => false
              end
        | EmptyString => false
        end
  end.

(** The white space at the end of the string is dropped: the longest
    tail made of white space only. *)
Fixpoint TrimRight (s : string) : string :=
  match s with
  | EmptyString => EmptyString
  | String a rest =>
      if allSpace s then EmptyString else String a (TrimRight rest)
  end.

(** [strings.TrimSpace]: the string without the white space of Unicode
    at its head and at its end. *)
Definition TrimSpace (s : string) : string := TrimRight (TrimLeft s).

End strings.

Module strconv.

Definition digit (c : ascii) : option Z :=
  let n := nat_of_ascii c in
  if (48 <=? n)%nat && (n <=? 57)%nat then Some (Z.of_nat (n - 48)) else None.

Fixpoint digits (acc : Z) (s : string) : option Z :=
  match s with
  | EmptyString => Some acc
  | String c rest =>
      match digit c with
      | Some d => digits (10 * acc + d) rest
      | None => None
      end
  end.

Definition unsigned (s : string) : option Z :=
  match s with
  | EmptyString => None
  | _ => digits 0 s
  end.

(** [strconv.Atoi]: the value and whether an error is returned.  A
    syntax error gives 0, a range error the nearest bound. *)
Definition Atoi (s : string) : Z * bool :=
  let '(neg, body) :=
    match s with
    | String "-" rest => (true, rest)
    | String "+" rest => (false, rest)
    | _ => (false, s)
    end in
  match unsigned body with
  | None => (0, true)
  | Some n =>
      let v := if neg then - n else n in
      if v <? Num.minInt64 then (Num.minInt64, true)
      else if Num.maxInt64 <? v then (Num.maxInt64, true)
      else (v, false)
  end.

End strconv.

Module fmt.

Inductive arg := AInt (n : Z) | AStr (s : string).

Definition typed (a : arg) : string :=
  match a with
  | AInt n => "int=" ++ pretty n
  | AStr s => "string=" ++ s
  end.

Fixpoint extras (args : list arg) : string :=
  match args with
  | [] => ""
  | [a] => typed a
  | a :: rest => typed a ++ ", " ++ extras rest
  end.

Definition extra (args : list arg) : string :=
  match args with
  | [] => ""
  | _ => "%!(EXTRA " ++ extras args ++ ")"
  end.

(** One verb applied to one operand.  The verbs of this package's
    formats are [%d], [%s] and [%v]; any other character is shown the
    way [fmt] shows a verb that does not apply. *)
Definition verb (c : ascii) (a : arg) : string :=
  match a with
  | AInt n =>
      if (c =? "d")%char || (c =? "v")%char then pretty n
      else "%!" ++ String c ("(" ++ typed a ++ ")")
  | AStr s =>
      if (c =? "s")%char || (c =? "v")%char then s
      else "%!" ++ String c ("(" ++ typed a ++ ")")
  end.

(** [fmt.Sprintf] for formats without flags, width or precision. *)
Fixpoint Sprintf (format : string) (args : list arg) : string :=
  match format with
  | EmptyString => extra args
  | String c rest =>
      if (c =? "%")%char then
        match rest with
        | EmptyString => "%!(NOVERB)" ++ extra args
        | String v rest' =>
            if (v =? "%")%char then String "%" (Sprintf rest' args)
            else
              match args with
              | [] => "%!" ++ String v ("(MISSING)" ++ Sprintf rest' [])
              | a :: args' => verb v a ++ Sprintf rest' args'
              end
        end
      else String c (Sprintf rest args)
  end.

End fmt.

(** ** package time *)

Module time.

(** A [Duration] is a count of nanoseconds in an [int64]. *)
Definition Nanosecond : Z := 1.
Definition Second : Z := 1000000000.
Definition Minute : Z := 60 * Second.

(** [Time.Sub]: the difference, saturated to the range of [Duration]. *)
Definition Sub (t u : Z) : Z :=
  Z.max Num.minInt64 (Z.min Num.maxInt64 (t - u)).

(** [Duration.Seconds]. *)
Definition Seconds (d : Z) : float :=
  (Num.float64_of_int (Z.quot d Second)
   + Num.float64_of_int (Z.rem d Second) / 1e9)%float.

End time.

Definition measureInterval : Z := time.Second * 5.
Definition cpuGetUtilisationTimeout : Z := time.Second * 10.

(** ** The time series *)

Record TimeValue := mkTimeValue {
  Time : Z;
  Values : gmap string float
}.

Record TimeSeriesAverage := mkTSA {
  TimeSeries : list TimeValue;
  mu : bool;
  _DurationInMinutes : list Z
}.

Definition minutes (mins : Z) : Z := Num.wrap64 (time.Minute * mins).

(** [sort.Ints] *)
Definition sort_Ints (l : list Z) : list Z := merge_sort Z.le l.

Definition SetDurationsMinutes (durations : list Z) (tsa : TimeSeriesAverage)
  : TimeSeriesAverage :=
  {| TimeSeries := TimeSeries tsa;
     mu := mu tsa;
     _DurationInMinutes := sort_Ints durations |}.

(** The pruning loop of [Add]: [now] is the clock read by [time.Since].
    The window is only looked up when the series is not empty; with no
    configured duration the look-up is out of range. *)
Fixpoint prune (now : Z) (durations : list Z) (ts : list TimeValue)
  : outcome (list TimeValue) :=
  match ts with
  | [] => Returned []
  | tv :: rest =>
      match last durations with
      | None => Panicked "index out of range [-1]"
      | Some d =>
          if minutes d <? time.Sub now (Time tv)
          then prune now durations rest
          else Returned ts
      end
  end.

Definition Add (now : Z) (t : Z) (valuesMap : gmap string float)
    (tsa : TimeSeriesAverage) : outcome TimeSeriesAverage :=
  ts ← prune now (_DurationInMinutes tsa) (TimeSeries tsa);
  Returned {| TimeSeries := (ts ++ [mkTimeValue t valuesMap])%list;
              mu := mu tsa;
              _DurationInMinutes := _DurationInMinutes tsa |}.

(** The rounding of [Percentage]:
    [float64(int64(x*10000+0.5)) / 10000]. *)
Definition round4 (x : float) : float :=
  (Num.float64_of_int (Num.int64_of_float (x * 10000 + 0.5)) / 10000)%float.

Definition valueOf (m : gmap string float) (key : string) : float :=
  default 0%float (m !! key).

(** The reference index of window [d]. *)
Definition keyInt (tsa : TimeSeriesAverage) (d : Z) : Z :=
  Z.of_nat (length (TimeSeries tsa))
  - Z.quot (Num.wrap64 (d * time.Minute)) measureInterval.

(** One iteration of the loop over the keys of the latest snapshot:
    the value stored under [sum[d][key]], or [None] when indexing the
    series panics. *)
Definition percentageOf (tsa : TimeSeriesAverage) (lastTV : TimeValue)
    (ki : Z) (key : string) (lastVal : float) : option float :=
  if ki <? 0 then Some (-1)%float
  else
    ref ← TimeSeries tsa !! Z.to_nat ki;
    Some (round4 ((lastVal - valueOf (Values ref) key)
                  / time.Seconds (time.Sub (Time lastTV) (Time ref)))%float).

(** A loop [for key, val := range m] whose body stores one value under
    [key] and may panic. *)
Definition rangeValues (f : string -> float -> option float)
    (m : gmap string float) : option (gmap string float) :=
  map_fold (fun key val acc => a ← acc; r ← f key val; Some (<[key := r]> a))
           (Some ∅) m.

(** The body of the loop over the windows: [sum[d]] is filled from the
    keys of the latest snapshot. *)
Definition percentageWindow (tsa : TimeSeriesAverage) (lastTV : TimeValue)
    (d : Z) : option (gmap string float) :=
  rangeValues (percentageOf tsa lastTV (keyInt tsa d)) (Values lastTV).

Definition percentageStep (tsa : TimeSeriesAverage) (lastTV : TimeValue)
    (acc : outcome (gmap Z (gmap string float))) (d : Z)
  : outcome (gmap Z (gmap string float)) :=
  sum ← acc;
  match percentageWindow tsa lastTV d with
  | None => Panicked "index out of range"
  | Some m => Returned (<[d := m]> sum)
  end.

Definition notCollected : string := "CPU metrics are not collected yet".

(** [Percentage]: the mutex is taken on entry and released by the
    deferred [Unlock], so the store is returned as it was. *)
Definition Percentage (tsa : TimeSeriesAverage)
  : outcome (option (gmap Z (gmap string float)) * option string) :=
  if mu tsa then Blocked
  else
    match last (TimeSeries tsa) with
    | None => Returned (None, Some notCollected)
    | Some lastTV =>
        sum ← foldl (percentageStep tsa lastTV) (Returned ∅)
                    (_DurationInMinutes tsa);
        Returned (Some sum, None)
    end.

(** [Average]: [sum] and [count] are the two maps of the method, [now]
    is the clock read for every snapshot.  The method never touches
    [mu]. *)

(** [sum[d][key] += val; count[d][key]++] *)
Definition averageAdd (d : Z) (key : string) (val : float)
    (sc : gmap Z (gmap string float) * gmap Z (gmap string Z))
  : gmap Z (gmap string float) * gmap Z (gmap string Z) :=
  let s := default ∅ (sc.1 !! d) in
  let c := default ∅ (sc.2 !! d) in
  (<[d := <[key := (valueOf s key + val)%float]> s]> sc.1,
   <[d := <[key := default 0 (c !! key) + 1]> c]> sc.2).

(** The body of the loop over the snapshots. *)
Definition averageSnapshot (now : Z) (durations : list Z)
    (sc : gmap Z (gmap string float) * gmap Z (gmap string Z))
    (ts : TimeValue)
  : gmap Z (gmap string float) * gmap Z (gmap string Z) :=
  foldl (fun sc d =>
           if time.Sub now (Time ts) <? minutes d
           then map_fold (averageAdd d) sc (Values ts)
           else sc)
        sc durations.

(** The body of the last loop:
    [sum[d][key] = val / float64(count[d][key])] for every key. *)
Definition averageDivide (count : gmap Z (gmap string Z))
    (sum : gmap Z (gmap string float)) (d : Z) : gmap Z (gmap string float) :=
  <[d := map_imap
           (fun key val =>
              Some (val / Num.float64_of_int
                            (default 0%Z (default ∅ (count !! d) !! key)))%float)
           (default ∅ (sum !! d))]> sum.

Definition Average (now : Z) (tsa : TimeSeriesAverage)
  : gmap Z (gmap string float) :=
  let durations := _DurationInMinutes tsa in
  let made :=
    foldl (fun sc d => (<[d := ∅]> sc.1, <[d := ∅]> sc.2))
          ((∅, ∅) : gmap Z (gmap string float) * gmap Z (gmap string Z))
          durations in
  let sc := foldl (averageSnapshot now durations) made (TimeSeries tsa) in
  foldl (averageDivide sc.2) sc.1 durations.

(** ** The operating system *)

Module cpu.
(** The fields of gopsutil's [cpu.TimesStat] that the watcher reads. *)
Record TimesStat := mkTimesStat {
  User : float; System : float; Idle : float; Nice : float;
  Iowait : float; Irq : float; Softirq : float; Steal : float
}.
End cpu.

Module load.
Record AvgStat := mkAvgStat { Load1 : float; Load5 : float; Load15 : float }.
End load.

(** An operating system query: the error text or the value. *)
Definition query (A : Type) : Type := string + A.

(** ** The watcher *)

Record CPUWatcher := mkCPUWatcher {
  LoadAvg1 : bool;
  LoadAvg5 : bool;
  LoadAvg15 : bool;
  UtilAvg : TimeSeriesAverage;
  UtilTypes : list string
}.

Definition withUtilAvg (stat : CPUWatcher) (tsa : TimeSeriesAverage)
  : CPUWatcher :=
  {| LoadAvg1 := LoadAvg1 stat; LoadAvg5 := LoadAvg5 stat;
     LoadAvg15 := LoadAvg15 stat; UtilAvg := tsa;
     UtilTypes := UtilTypes stat |}.

Definition withMu (tsa : TimeSeriesAverage) (held : bool)
  : TimeSeriesAverage :=
  {| TimeSeries := TimeSeries tsa; mu := held;
     _DurationInMinutes := _DurationInMinutes tsa |}.

Definition utilisationMetricsByOS (os : string) : list string :=
  if (os =? "windows")%string then ["system"; "user"; "idle"; "irq"]
  else if (os =? "linux")%string
       then ["system"; "user"; "nice"; "iowait"; "idle"; "softirq"; "irq"]
  else if (os =? "freebsd")%string then ["system"; "user"; "nice"; "idle"; "irq"]
  else if (os =? "solaris")%string then []
  else if (os =? "openbsd")%string then ["system"; "user"; "nice"; "idle"; "irq"]
  else if (os =? "darwin")%string then ["system"; "user"; "nice"; "idle"]
  else [].

(** The configuration fields that [Cagent.CPUWatcher] reads. *)
Record Cagent := mkCagent {
  CPULoadDataGather : list string;
  CPUUtilDataGather : list string;
  CPUUtilTypes : list string
}.

(** One requested load-average mode. *)
Definition loadFlag (stat : CPUWatcher) (d : string) : CPUWatcher :=
  if strings.HasPrefix d "avg" then
    let v := (strconv.Atoi (strings.from 3 d)).1 in
    if v =? 1 then
      {| LoadAvg1 := true; LoadAvg5 := LoadAvg5 stat;
         LoadAvg15 := LoadAvg15 stat; UtilAvg := UtilAvg stat;
         UtilTypes := UtilTypes stat |}
    else if v =? 5 then
      {| LoadAvg1 := LoadAvg1 stat; LoadAvg5 := true;
         LoadAvg15 := LoadAvg15 stat; UtilAvg := UtilAvg stat;
         UtilTypes := UtilTypes stat |}
    else if v =? 15 then
      {| LoadAvg1 := LoadAvg1 stat; LoadAvg5 := LoadAvg5 stat;
         LoadAvg15 := true; UtilAvg := UtilAvg stat;
         UtilTypes := UtilTypes stat |}
    else stat
  else stat.

Definition loadFlags (gather : list string) (stat : CPUWatcher) : CPUWatcher :=
  foldl loadFlag stat gather.

Definition utilDurations (gather : list string) : list Z :=
  foldl (fun durations d =>
           if strings.HasPrefix d "avg" then
             match strconv.Atoi (strings.from 3 d) with
             | (_, true) => durations
             | (v, false) => (durations ++ [v])%list
             end
           else durations)
        [] gather.

Definition utilTypes (GOOS : string) (types : list string) : list string :=
  foldl (fun acc t =>
           if existsb (fun metric => (metric =? t)%string)
                      (utilisationMetricsByOS GOOS)
           then (acc ++ [t])%list else acc)
        [] types.

(** [Cagent.CPUWatcher] on platform [GOOS], where [load.Avg()] answers
    [avg]. *)
Definition Cagent_CPUWatcher (GOOS : string) (avg : query load.AvgStat)
    (ca : Cagent) : CPUWatcher :=
  let stat := mkCPUWatcher false false false (mkTSA [] true []) [] in
  let stat :=
    match CPULoadDataGather ca with
    | [] => stat
    | gather =>
        match avg with
        | inl err =>
            if (err =? "not implemented yet")%string then stat
            else loadFlags gather stat
        | inr _ => loadFlags gather stat
        end
    end in
  let durations := utilDurations (CPUUtilDataGather ca) in
  let stat :=
    {| LoadAvg1 := LoadAvg1 stat; LoadAvg5 := LoadAvg5 stat;
       LoadAvg15 := LoadAvg15 stat; UtilAvg := UtilAvg stat;
       UtilTypes := utilTypes GOOS (CPUUtilTypes ca) |} in
  withUtilAvg stat
    (withMu (SetDurationsMinutes durations (UtilAvg stat)) false).

(** The [switch] of [Once]: the counter of [cputime] that [utype]
    names, or [None] in the [default] case. *)
Definition cpuValue (utype : string) (cputime : cpu.TimesStat) : option float :=
  if (utype =? "system")%string then Some (cpu.System cputime)
  else if (utype =? "user")%string then Some (cpu.User cputime)
  else if (utype =? "nice")%string then Some (cpu.Nice cputime)
  else if (utype =? "idle")%string then Some (cpu.Idle cputime)
  else if (utype =? "iowait")%string then Some (cpu.Iowait cputime)
  else if (utype =? "irq")%string then Some (cpu.Irq cputime)
  else if (utype =? "softirq")%string then Some (cpu.Softirq cputime)
  else if (utype =? "steal")%string then Some (cpu.Steal cputime)
  else None.

Definition cpuKey (utype : string) (i : Z) : string :=
  fmt.Sprintf "%s.%%d.cpu%d" [fmt.AStr utype; fmt.AInt i].

Definition totalKey (utype : string) : string :=
  fmt.Sprintf "%s.%%d.total" [fmt.AStr utype].

(** The body of the inner loop of [Once], for core [i]. *)
Definition sampleType (i : Z) (cputime : cpu.TimesStat)
    (values : gmap string float) (utype : string) : gmap string float :=
  let utype := strings.ToLower utype in
  match cpuValue utype cputime with
  | None => values
  | Some value =>
      let values := <[cpuKey utype i := value]> values in
      <[totalKey utype := (valueOf values (totalKey utype) + value)%float]> values
  end.

(** The outer loop of [Once], from core [i] on. *)
Fixpoint sampleTimes (i : Z) (times : list cpu.TimesStat)
    (utypes : list string) (values : gmap string float) : gmap string float :=
  match times with
  | [] => values
  | cputime :: rest =>
      sampleTimes (i + 1) rest utypes (foldl (sampleType i cputime) values utypes)
  end.

(** The keys that the last loop of [Once] divides by the number of cores. *)
Definition dividedKeys : list string :=
  ["system.%d.total"; "user.%d.total"; "nice.%d.total"; "idle.%d.total";
   "iowait.%d.total"; "interrupt.%d.total"; "softirq.%d.total";
   "steal.%d.total"].

Definition divideTotal (n : Z) (values : gmap string float) (k : string)
  : gmap string float :=
  <[k := (valueOf values k / Num.float64_of_int n)%float]> values.

Definition sampleValues (times : list cpu.TimesStat) (utypes : list string)
  : gmap string float :=
  foldl (divideTotal (Z.of_nat (length times)))
        (sampleTimes 0 times utypes ∅) dividedKeys.

(** [Once], where the operating system answers [times] and the clock
    reads [now].  The result is the returned error and the watcher
    after the call. *)
Definition Once (times : query (list cpu.TimesStat)) (now : Z)
    (stat : CPUWatcher) : outcome (option string * CPUWatcher) :=
  if mu (UtilAvg stat) then Blocked
  else
    let stat := withUtilAvg stat (withMu (UtilAvg stat) true) in
    match times with
    | inl err => Returned (Some err, stat)
    | inr times =>
        let values := sampleValues times (UtilTypes stat) in
        tsa ← Add now now values (UtilAvg stat);
        Returned (None, withUtilAvg stat (withMu tsa false))
    end.

(** [Run] over the intervals [ticks]: each gives the answer of the
    operating system and the clock of one iteration.  Errors are logged
    and dropped. *)
Fixpoint Run (ticks : list (query (list cpu.TimesStat) * Z))
    (stat : CPUWatcher) : outcome CPUWatcher :=
  match ticks with
  | [] => Returned stat
  | (times, now) :: rest =>
      r ← Once times now stat;
      Run rest r.2
  end.

(** The values of a [MeasurementsMap]: [nil] or a [float64]. *)
Inductive Measurement := MNil | MFloat (v : float).

Definition measurement (v : float) : Measurement :=
  if (v =? -1)%float then MNil else MFloat v.

Definition utilName (k : string) (d : Z) : string :=
  "util." ++ fmt.Sprintf k [fmt.AInt d].

(** The inner loop of [Results], over the keys of window [d]. *)
Definition utilWindow (d : Z) (m : gmap string float)
    (results : gmap string Measurement) : gmap string Measurement :=
  map_fold (fun k v results => <[utilName k d := measurement v]> results)
           results m.

(** The loop of [Results] over the windows.  The order in which Go
    visits a map is not fixed; here it is the order of [map_fold]. *)
Definition utilResults (util : gmap Z (gmap string float))
    (results : gmap string Measurement) : gmap string Measurement :=
  map_fold utilWindow results util.

Definition loadResults (cs : CPUWatcher) (loadAvg : load.AvgStat)
    (results : gmap string Measurement) : gmap string Measurement :=
  let results :=
    if LoadAvg1 cs then <["load.avg.1" := MFloat (load.Load1 loadAvg)]> results
    else results in
  let results :=
    if LoadAvg5 cs then <["load.avg.5" := MFloat (load.Load5 loadAvg)]> results
    else results in
  if LoadAvg15 cs then <["load.avg.15" := MFloat (load.Load15 loadAvg)]> results
  else results.

Definition combined (errs : list string) : option string :=
  match errs with
  | [] => None
  | _ => Some ("CPU: " ++ strings.Join errs "; ")
  end.

(** [Results], where [load.Avg()] answers [avg]. *)
Definition Results (avg : query load.AvgStat) (cs : CPUWatcher)
  : outcome (gmap string Measurement * option string) :=
  r ← Percentage (UtilAvg cs);
  let errs := match r.2 with Some e => [e] | None => [] end in
  let results := utilResults (default ∅ r.1) ∅ in
  if LoadAvg1 cs || LoadAvg5 cs || LoadAvg15 cs then
    match avg with
    | inl e => Returned (results, combined (errs ++ [e])%list)
    | inr loadAvg => Returned (loadResults cs loadAvg results, combined errs)
    end
  else Returned (results, combined errs).


(** ** Half-up rounding, as the specification words it *)



(** A window is a positive count of minutes whose duration fits in a
    [time.Duration]. *)
Definition maxWindow : Z := 153722867.
Definition validWindow (d : Z) : Prop := 0 < d <= maxWindow.

(** ** Definitions used to state the properties *)

(** The rate stored for [key]: latest against reference. *)
Definition rateOf (lastTV ref : TimeValue) (key : string) (lastVal : float)
  : float :=
  round4 ((lastVal - valueOf (Values ref) key)
          / time.Seconds (time.Sub (Time lastTV) (Time ref)))%float.

(** What [Percentage] stores under [sum[d]] when it does not panic. *)
Definition windowResult (tsa : TimeSeriesAverage) (lastTV : TimeValue) (d : Z)
  : gmap string float :=
  if keyInt tsa d <? 0 then map_imap (fun _ _ => Some (-1)%float) (Values lastTV)
  else match TimeSeries tsa !! Z.to_nat (keyInt tsa d) with
       | Some ref => map_imap (fun k v => Some (rateOf lastTV ref k v))
                              (Values lastTV)
       | None => ∅
       end.


(** A store of one counter, from (seconds, value) samples, with the
    one-minute window. *)
Definition counterStore (key : string) (samples : list (Z * Z))
  : TimeSeriesAverage :=
  mkTSA (map (fun s => mkTimeValue (s.1 * time.Second)
                                   {[ key := Num.float64_of_int s.2 ]}) samples)
        false [1].

(** The reference and the latest snapshot are 60 seconds apart and the
    counter grows by 30. *)
Definition risingStore : TimeSeriesAverage :=
  counterStore "user.%d.total"
    [(0, 0); (10, 5); (15, 7); (20, 10); (25, 12); (30, 15); (35, 17);
     (40, 20); (45, 22); (50, 25); (55, 27); (60, 30)].


(** The counter appears after the oldest snapshot was taken. *)
Definition lateKeyStore : TimeSeriesAverage :=
  mkTSA (mkTimeValue 0 ∅
         :: TimeSeries (counterStore "steal.%d.cpu0"
              [(5, 2); (10, 4); (15, 6); (20, 8); (25, 10); (30, 12);
               (35, 14); (40, 16); (45, 18); (50, 20); (55, 22)]))
        false [1].

(** A sequence of [Add] calls, each appending the snapshot [(t, values)]
    at the instant [t] (as [Once] does with [time.Now()]). *)
Fixpoint Adds (calls : list (Z * gmap string float)) (tsa : TimeSeriesAverage)
  : outcome TimeSeriesAverage :=
  match calls with
  | [] => Returned tsa
  | (t, values) :: rest => tsa' ← Add t t values tsa; Adds rest tsa'
  end.

Definition snapshotOf (call : Z * gmap string float) : TimeValue :=
  mkTimeValue call.1 call.2.

Definition sampleCalls : list (Z * gmap string float) :=
  [(0, ∅); (200 * time.Second, ∅); (400 * time.Second, ∅)].



(** The watcher of the examples: one snapshot, the one-minute window,
    the one-minute load average. *)
Definition oneSampleWatcher : CPUWatcher :=
  mkCPUWatcher true false false
    (mkTSA [mkTimeValue 0 {[ "user.%d.total" := 3%float ]}] false [1])
    ["user"].

(** The same watcher while a sample is in progress: the mutex is
    held. *)
Definition heldWatcher : CPUWatcher :=
  withUtilAvg oneSampleWatcher (withMu (UtilAvg oneSampleWatcher) true).

(** Whether the [switch] of [Once] has a case for [utype]. *)
Definition recognised (utype : string) : bool :=
  match cpuValue utype (cpu.mkTimesStat 0 0 0 0 0 0 0 0) with
  | Some _ => true
  | None => false
  end.

(** The utilisation types that [Once] samples: the lower-cased
    [UtilTypes] that its [switch] knows. *)
Definition enabled (utypes : list string) : list string :=
  filter (fun t => recognised t = true) (strings.ToLower <$> utypes).

Definition counter (utype : string) (cputime : cpu.TimesStat) : float :=
  default 0%float (cpuValue utype cputime).

(** The sum of a list of floats, added from the left starting at 0. *)
Definition fsum (l : list float) : float := foldl PrimFloat.add 0%float l.

(** The arithmetic mean of the per-core values of one type. *)
Definition coreMean (utype : string) (times : list cpu.TimesStat) : float :=
  (fsum (counter utype <$> times)
   / Num.float64_of_int (Z.of_nat (length times)))%float.

(** The names of the per-core keys of [n] cores, and of the totals. *)
Definition cpuKeys (utypes : list string) (n : nat) : list string :=
  t ← utypes; (fun j => cpuKey t (Z.of_nat j)) <$> seq 0 n.

Definition totalKeys (utypes : list string) : list string :=
  totalKey <$> utypes.

Fixpoint hasChar (c : ascii) (s : string) : bool :=
  match s with
  | EmptyString => false
  | String c' rest => (c =? c')%char || hasChar c rest
  end.

(** A watcher of the [system] counter alone, with the one-minute
    window and an empty store. *)
Definition systemWatcher : CPUWatcher :=
  mkCPUWatcher false false false (mkTSA [] false [1]) ["system"].

Definition oneCore : cpu.TimesStat := cpu.mkTimesStat 1 2 3 4 5 6 7 8.

(** The keys that [Once] stores: a type name, the placeholder of the
    window, a suffix. *)
Definition windowKey (k : string) : Prop :=
  exists t s, k = (t +:+ ".%d." +:+ s)%string
              /\ hasChar "%" t = false /\ hasChar "." t = false
              /\ hasChar "%" s = false.

(** A watcher of the [irq] counter alone, with the one-minute window
    and an empty store. *)
Definition irqWatcher : CPUWatcher :=
  mkCPUWatcher false false false (mkTSA [] false [1]) ["irq"].

(** A watcher with the one-minute window and no utilisation type. *)
Definition noTypeWatcher : CPUWatcher :=
  Cagent_CPUWatcher "linux" (inl "n/a") (mkCagent [] ["avg1"] []).

(** What [Run] leaves after the given ticks, when it gets that far. *)
Definition afterRun (ticks : list (query (list cpu.TimesStat) * Z))
    (stat : CPUWatcher) : option CPUWatcher :=
  match Run ticks stat with
  | Returned stat' => Some stat'
  | _ => None
  end.

(** Thirteen samples of one core, five seconds apart. *)
Definition thirteenTicks : list (query (list cpu.TimesStat) * Z) :=
  (fun j => (inr [oneCore], Z.of_nat j * measureInterval)) <$> seq 0 13.

(** ** Definitions used to state the further properties *)

(** The window that one entry of [cpu_utilisation_gathering_mode]
    asks for: ["avg<N>"] gives [N]. *)
Definition windowOf (d : string) : option Z :=
  if strings.HasPrefix d "avg" then
    match strconv.Atoi (strings.from 3 d) with
    | (v, false) => Some v
    | (_, true) => None
    end
  else None.

(** Whether one entry of [cpu_load_data_gathering_mode] asks for the
    load average of [n] minutes. *)
Definition wantsLoad (n : Z) (d : string) : bool :=
  strings.HasPrefix d "avg" && ((strconv.Atoi (strings.from 3 d)).1 =? n).

(** Whether [load.Avg()] is implemented on the platform. *)
Definition loadImplemented (avg : query load.AvgStat) : bool :=
  match avg with
  | inl err => negb (err =? "not implemented yet")%string
  | inr _ => true
  end.

(** The ticks of a run whose every query succeeds. *)
Definition goodTicks (samples : list (list cpu.TimesStat * Z))
  : list (query (list cpu.TimesStat) * Z) :=
  (fun s => (inr s.1, s.2)) <$> samples.

(** Whether a snapshot is older than the window [d] at the instant
    [now], as the pruning loop of [Add] tests it. *)
Definition tooOld (now d : Z) (tv : TimeValue) : Prop :=
  minutes d < time.Sub now (Time tv).

(** The snapshot that a successful [Once] appends. *)
Definition sampleOf (utypes : list string) (s : list cpu.TimesStat * Z)
  : TimeValue :=
  mkTimeValue s.2 (sampleValues s.1 utypes).

(** Two watchers with the same configuration. *)
Definition sameConfig (a b : CPUWatcher) : Prop :=
  LoadAvg1 a = LoadAvg1 b /\ LoadAvg5 a = LoadAvg5 b
  /\ LoadAvg15 a = LoadAvg15 b /\ UtilTypes a = UtilTypes b
  /\ _DurationInMinutes (UtilAvg a) = _DurationInMinutes (UtilAvg b).

(** A store sampled every [measureInterval] from the instant [t0]: the
    snapshot number [j] holds [vals j]. *)
Definition regularStore (t0 : Z) (vals : nat -> gmap string float) (n : nat)
    (durations : list Z) : TimeSeriesAverage :=
  mkTSA ((fun j => mkTimeValue (t0 + Z.of_nat j * measureInterval) (vals j))
           <$> seq 0 n)
        false durations.


(** The value under [s[d][key]] of a map of maps. *)
Definition lookup2 {A} (s : gmap Z (gmap string A)) (d : Z) (key : string)
  : option A :=
  default ∅ (s !! d) !! key.

(** Whether [Average] counts a snapshot in the window [d] at the
    instant [now]. *)
Definition inWindow (now d : Z) (tv : TimeValue) : Prop :=
  time.Sub now (Time tv) < minutes d.

Global Instance inWindow_dec now d tv : Decision (inWindow now d tv).
Proof. unfold inWindow. apply _. Defined.

(** The values of [key] in the snapshots of the window, oldest first. *)
Definition windowValues (now d : Z) (key : string) (ts : list TimeValue)
  : list float :=
  omap (fun tv => Values tv !! key) (filter (inWindow now d) ts).

(** The running sum and count of one key in one window. *)
Definition sumStep (acc : option float) (v : float) : option float :=
  Some (default 0 acc + v)%float.

Definition countStep (acc : option Z) (v : float) : option Z :=
  Some (default 0 acc + 1).

(** * package raid: the arrays of /proc/mdstat

    The parser of the [raid] package.  Its calls to the logger write a
    message and change nothing else; they are left out. *)

Module raid.

Local Open Scope list_scope.

Record raidInfo := mkRaidInfo {
  Name : string;
  Type_ : string;
  State : string;
  RaidLevel : Z;
  Devices : list string;
  Inactive : list Z;
  Active : list Z;
  Failed : list Z;
  IsRebuilding : bool
}.

(** ** [raidStatusRegex], the expression [\[([U_]+)\]] *)

(** The class [[U_]]. *)
Definition statusByte (c : ascii) : bool :=
  Ascii.eqb c "U" || Ascii.eqb c "_".

(** The longest run of [[U_]] at the head of [s], and what follows
    it. *)
Fixpoint statusRun (s : string) : string * string :=
  match s with
  | EmptyString => (EmptyString, EmptyString)
  | String c rest =>
      if statusByte c
      then let '(run, tl) := statusRun rest in (String c run, tl)
      else (EmptyString, s)
  end.

(** A match of the expression that starts at the head of [s]: its
    group. *)
Definition matchHere (s : string) : option string :=
  match s with
  | String c rest =>
      if Ascii.eqb c "[" then
        match statusRun rest with
        | (String u run, String c' _) =>
            if Ascii.eqb c' "]" then Some (String u run) else None
        | _ => None
        end
      else None
  | EmptyString => None
  end.

(** [raidStatusRegex.FindStringSubmatch(s)]: the group [matches[1]] of
    the leftmost match, [None] when [len(matches) == 0]. *)
Fixpoint FindStringSubmatch (s : string) : option string :=
  match matchHere s with
  | Some group => Some group
  | None =>
      match s with
      | EmptyString => None
      | String _ rest => FindStringSubmatch rest
      end
  end.

(** ** [parseStatusLine] *)

(** The loop over the bytes of the status, from the index [i] on. *)
Fixpoint statusDevs (i : Z) (status : string) (devs : list Z * list Z)
  : list Z * list Z :=
  match status with
  | EmptyString => devs
  | String c rest =>
      statusDevs (i + 1) rest
        (if Ascii.eqb c "_" then (devs.1 ++ [i], devs.2)
         else if Ascii.eqb c "U" then (devs.1, devs.2 ++ [i])
         else devs)
  end.

(** The inactive and the active devices. *)
Definition parseStatusLine (line : string) : list Z * list Z :=
  match FindStringSubmatch line with
  | Some status => statusDevs 0 status ([], [])
  | None => ([], [])
  end.

(** ** [GetFailedAndMissingPhysicalDevices] *)

Definition len {A} (l : list A) : Z := Z.of_nat (length l).

(** The first loop: a failed index below [len(r.Devices)] reads the
    device, which panics when the index is negative. *)
Definition failedStep (devices : list string)
    (acc : outcome (list string)) (deviceIndex : Z) : outcome (list string) :=
  failedDevices ← acc;
  if deviceIndex <? len devices then
    match (if deviceIndex <? 0 then None else devices !! Z.to_nat deviceIndex) with
    | Some device => Returned (failedDevices ++ [device])
    | None => Panicked "index out of range"
    end
  else Returned failedDevices.

Definition missingStep (devices : list string)
    (missingDevicesCount : Z) (deviceIndex : Z) : Z :=
  if len devices <=? deviceIndex then missingDevicesCount + 1
  else missingDevicesCount.

Definition GetFailedAndMissingPhysicalDevices (r : raidInfo)
  : outcome (list string * Z) :=
  failedDevices ← foldl (failedStep (Devices r)) (Returned []) (Failed r);
  Returned (failedDevices, foldl (missingStep (Devices r)) 0 (Inactive r)).

(** ** [parseMdstat] *)

(** The loop over the devices of one array, from the index [i] on: the
    names without their bracketed number, and the indices of the
    devices marked [(F)]. *)
Fixpoint scanDevices (i : Z) (devices : list string) (failed : list Z)
  : list string * list Z :=
  match devices with
  | [] => ([], failed)
  | device :: rest =>
      let p := strings.Index device "[" in
      if 0 <? p then
        let '(names, failed') :=
          scanDevices (i + 1) rest
            (if strings.Contains device "(F)" then failed ++ [i] else failed) in
        (strings.upto (Z.to_nat p) device :: names, failed')
      else
        let '(names, failed') := scanDevices (i + 1) rest failed in
        (device :: names, failed')
  end.

(** Whether the loop skips the (trimmed) line. *)
Definition skipped (line : string) : bool :=
  String.eqb line ""
  || strings.HasPrefix line "Personalities" || strings.HasPrefix line "unused"
  || (let parts := strings.Split line " " in
      (len parts <? 5) || negb (String.eqb (parts !!! 1%nat) ":")).

(** The array that the header line announces, before its status is
    read. *)
Definition header (line : string) : raidInfo :=
  let parts := strings.Split line " " in
  let raidType := parts !!! 3%nat in
  let level :=
    match strconv.Atoi (strings.TrimPrefix raidType "raid") with
    | (level, false) => level
    | (_, true) => -1
    end in
  let '(devices, failed) := scanDevices 0 (drop 4 parts) [] in
  {| Name := parts !!! 0%nat; Type_ := raidType; State := parts !!! 2%nat;
     RaidLevel := level; Devices := devices;
     Inactive := []; Active := []; Failed := failed;
     IsRebuilding := false |}.

(** The body of the loop for the line [n]: the arrays to go on with
    ([inl]) or to return ([inr]). *)
Definition parseLine (lines : list string) (n : nat) (line : string)
    (raids : list raidInfo) : list raidInfo + list raidInfo :=
  let line := strings.TrimSpace line in
  if skipped line then inl raids
  else
    let raid := header line in
    if (length lines <=? n + 3)%nat then inr raids
    else
      let '(inactive, active) := parseStatusLine (lines !!! (n + 1)%nat) in
      let syncLineIdx :=
        if strings.Contains (lines !!! (n + 2)%nat) "bitmap"
        then (n + 2 + 1)%nat else (n + 2)%nat in
      let isRecovering := strings.Contains (lines !!! syncLineIdx) "recovery" in
      inl (raids ++ [ {| Name := Name raid; Type_ := Type_ raid;
                         State := State raid; RaidLevel := RaidLevel raid;
                         Devices := Devices raid;
                         Inactive := inactive; Active := active;
                         Failed := Failed raid;
                         IsRebuilding := isRecovering |} ]).

(** The loop over the lines, from the line [n] on. *)
Fixpoint parseLines (lines : list string) (n : nat) (rest : list string)
    (raids : list raidInfo) : list raidInfo :=
  match rest with
  | [] => raids
  | line :: rest' =>
      match parseLine lines n line raids with
      | inl raids' => parseLines lines (S n) rest' raids'
      | inr raids' => raids'
      end
  end.

Definition parseMdstat (data : string) : list raidInfo :=
  let lines := strings.Split data "010"%char in
  parseLines lines 0 lines [].

End raid.

(** ** Definitions used to state the properties of the parser *)

(** The strings of [[U_]*]. *)
Fixpoint allStatus (s : string) : bool :=
  match s with
  | EmptyString => true
  | String c rest => raid.statusByte c && allStatus rest
  end.

(** The expression [\[([U_]+)\]] matches [line] after the prefix [pre],
    with [group] for its group. *)
Definition matchAt (line pre group : string) : Prop :=
  group <> ""
  /\ allStatus group = true
  /\ exists post, line = pre +:+ "[" +:+ group +:+ "]" +:+ post.

(** The byte [s[i]]. *)
Definition byteAt (s : string) (i : Z) : option ascii :=
  if i <? 0 then None else String.get (Z.to_nat i) s.

(** The indices of the byte [c] in [s], counted from [i]. *)
Fixpoint positions (c : ascii) (i : Z) (s : string) : list Z :=
  match s with
  | EmptyString => nil
  | String x rest =>
      if Ascii.eqb x c then i :: positions c (i + 1) rest
      else positions c (i + 1) rest
  end.

(** The name of a device, without its bracketed number. *)
Definition deviceName (device : string) : string :=
  let p := strings.Index device "[" in
  if 0 <? p then strings.upto (Z.to_nat p) device else device.

(** Whether the parser takes the device for failed. *)
Definition markedFailed (device : string) : bool :=
  (0 <? strings.Index device "[") && strings.Contains device "(F)".

(** The indices of the elements that satisfy [P], counted from [i]. *)
Fixpoint indicesOf {A} (P : A -> bool) (i : Z) (l : list A) : list Z :=
  match l with
  | nil => nil
  | x :: rest =>
      if P x then i :: indicesOf P (i + 1) rest
      else indicesOf P (i + 1) rest
  end.

(** The array of a header with the status and the recovery flag that
    the following lines give. *)
Definition arrayOf (h : raid.raidInfo) (status : list Z * list Z)
    (rebuilding : bool) : raid.raidInfo :=
  {| raid.Name := raid.Name h; raid.Type_ := raid.Type_ h;
     raid.State := raid.State h; raid.RaidLevel := raid.RaidLevel h;
     raid.Devices := raid.Devices h;
     raid.Inactive := status.1; raid.Active := status.2;
     raid.Failed := raid.Failed h;
     raid.IsRebuilding := rebuilding |}.

(** The line feed. *)
Definition LF : ascii := "010"%char.

(** ** Rendered files *)

(** An array as /proc/mdstat prints it: the words of its header line,
    and the lines that follow the header, up to the next header. *)
Record arrayText := mkArrayText {
  tName : string;
  tState : string;
  tType : string;
  tDevices : list string;
  tFollowing : list string
}.

Definition headerLine (a : arrayText) : string :=
  strings.Join (tName a :: ":" :: tState a :: tType a :: tDevices a) " ".

Definition blockLines (a : arrayText) : list string :=
  headerLine a :: tFollowing a.

(** The file: the lines that come before the first array, then the
    arrays, joined by line feeds. *)
Definition render (preamble : list string) (arrays : list arrayText)
  : string :=
  strings.Join (preamble ++ concat (blockLines <$> arrays))%list
               (String LF "").

(** A byte of ASCII that is no white space. *)
Definition visible (c : ascii) : bool :=
  (nat_of_ascii c <? 128)%nat && negb (strings.asciiSpace c).

(** A word: not empty, and made of such bytes. *)
Fixpoint noSpace (s : string) : bool :=
  match s with
  | EmptyString => true
  | String c rest => visible c && noSpace rest
  end.

Definition word (w : string) : Prop := w <> "" /\ noSpace w = true.

(** Whether the last byte of the string is a visible one. *)
Fixpoint lastVisible (s : string) : bool :=
  match s with
  | EmptyString => false
  | String c EmptyString => visible c
  | String _ rest => lastVisible rest
  end.

(** A line that is no header: the parser skips it. *)
Definition otherLine (l : string) : Prop :=
  hasChar LF l = false /\ raid.skipped (strings.TrimSpace l) = true.

Definition wellFormed (a : arrayText) : Prop :=
  word (tName a) /\ word (tState a) /\ word (tType a)
  /\ tDevices a <> nil /\ Forall word (tDevices a)
  /\ strings.HasPrefix (tName a) "Personalities" = false
  /\ strings.HasPrefix (tName a) "unused" = false
  /\ (3 <= length (tFollowing a))%nat
  /\ Forall otherLine (tFollowing a).

(** The array that the text describes. *)
Definition described (a : arrayText) : raid.raidInfo :=
  let following := tFollowing a in
  {| raid.Name := tName a;
     raid.Type_ := tType a;
     raid.State := tState a;
     raid.RaidLevel :=
       match strconv.Atoi (strings.TrimPrefix (tType a) "raid") with
       | (level, false) => level
       | (_, true) => -1
       end;
     raid.Devices := deviceName <$> tDevices a;
     raid.Inactive := (raid.parseStatusLine (following !!! 0%nat)).1;
     raid.Active := (raid.parseStatusLine (following !!! 0%nat)).2;
     raid.Failed := indicesOf markedFailed 0 (tDevices a);
     raid.IsRebuilding :=
       strings.Contains
         (following !!! (if strings.Contains (following !!! 1%nat) "bitmap"
                         then 2%nat else 1%nat))
         "recovery" |}.

(** Two arrays of a file: the first has a failed device and is being
    recovered, the second has a write-intent bitmap. *)
Definition md0 : arrayText :=
  mkArrayText "md0" "active" "raid1" ["sdb1[1](F)"; "sda1[0]"]
    ["      104320 blocks [2/1] [_U]";
     "      [==>..................]  recovery = 12.6% (37043392/292945152)";
     ""].

Definition md1 : arrayText :=
  mkArrayText "md1" "active" "raid5" ["sdc1[2]"; "sdb2[1]"; "sda2[0]"]
    ["      1464725760 blocks level 5, 64k chunk, algorithm 2 [3/3] [UUU]";
     "      bitmap: 0/234 pages [0KB], 512KB chunk";
     "";
     "unused devices: <none>";
     ""].

(** * Properties *)

Local Open Scope list_scope.

(** ** Loops *)

Lemma rangeValues_total (f : string -> float -> option float)
    (g : string -> float -> float) (m : gmap string float) :
  (forall k v, m !! k = Some v -> f k v = Some (g k v)) ->
  rangeValues f m = Some (map_imap (fun k v => Some (g k v)) m).
Proof.
  unfold rangeValues.
  apply (map_fold_weak_ind (fun r m =>
    (forall k v, m !! k = Some v -> f k v = Some (g k v)) ->
    r = Some (map_imap (fun k v => Some (g k v)) m))); clear m.
  - intros _. by rewrite map_imap_empty.
  - intros k v m r Hk IH Hf.
    rewrite IH.
    + simpl. rewrite (Hf k v) by apply lookup_insert_eq. simpl.
      by rewrite (map_imap_insert_Some _ _ _ _ (g k v)).
    + intros k' v' Hk'. apply Hf.
      rewrite lookup_insert_ne; [done|]. intros ->. congruence.
Qed.

Lemma foldl_insert_lookup {A} (g : Z -> A) (l : list Z) (acc : gmap Z A) d :
  foldl (fun s d => <[d := g d]> s) acc l !! d
  = if decide (d ∈ l) then Some (g d) else acc !! d.
Proof.
  revert acc. induction l as [|x l IH]; intros acc; cbn [foldl].
  - case_decide as Hin; [by apply elem_of_nil in Hin|done].
  - rewrite IH.
    destruct (decide (d ∈ l)) as [Hl|Hl], (decide (d ∈ x :: l)) as [Hxl|Hxl];
      try done.
    + destruct Hxl. by right.
    + apply elem_of_cons in Hxl as [->|?]; [|done]. by rewrite lookup_insert_eq.
    + rewrite lookup_insert_ne; [done|]. intros ->. apply Hxl. left.
Qed.

Lemma percentage_windows tsa lastTV (g : Z -> gmap string float) l acc :
  (forall d, d ∈ l -> percentageWindow tsa lastTV d = Some (g d)) ->
  foldl (percentageStep tsa lastTV) (Returned acc) l
  = Returned (foldl (fun s d => <[d := g d]> s) acc l).
Proof.
  revert acc. induction l as [|x l IH]; intros acc Hg; [done|].
  cbn [foldl].
  assert (percentageStep tsa lastTV (Returned acc) x
          = Returned (<[x := g x]> acc)) as ->.
  { unfold percentageStep. simpl. by rewrite (Hg x) by left. }
  apply IH. intros d Hd. apply Hg. by right.
Qed.

(** ** Windows *)

Lemma wrap64_small z : Num.minInt64 <= z <= Num.maxInt64 -> Num.wrap64 z = z.
Proof.
  unfold Num.wrap64, Num.minInt64, Num.maxInt64. intros H.
  rewrite Z.mod_small; lia.
Qed.

Lemma minutes_valid d : validWindow d -> minutes d = 60000000000 * d.
Proof.
  unfold validWindow, maxWindow, minutes. intros H.
  rewrite wrap64_small; unfold time.Minute, time.Second,
    Num.minInt64, Num.maxInt64; lia.
Qed.

Lemma keyInt_valid tsa d :
  validWindow d -> keyInt tsa d = Z.of_nat (length (TimeSeries tsa)) - 12 * d.
Proof.
  unfold validWindow, maxWindow, keyInt. intros H.
  rewrite wrap64_small by
    (unfold time.Minute, time.Second, Num.minInt64, Num.maxInt64; lia).
  unfold measureInterval, time.Minute, time.Second.
  replace (d * (60 * 1000000000)) with ((12 * d) * (1000000000 * 5)) by lia.
  by rewrite Z.quot_mul.
Qed.

Lemma percentageWindow_valid tsa lastTV d :
  TimeSeries tsa <> [] -> validWindow d ->
  percentageWindow tsa lastTV d = Some (windowResult tsa lastTV d).
Proof.
  intros Hne Hd. unfold percentageWindow, windowResult.
  destruct (keyInt tsa d <? 0) eqn:Hk.
  - apply rangeValues_total. intros k v _. unfold percentageOf. by rewrite Hk.
  - apply Z.ltb_ge in Hk.
    destruct (TimeSeries tsa !! Z.to_nat (keyInt tsa d)) as [ref|] eqn:Href.
    + apply rangeValues_total. intros k v _. unfold percentageOf.
      destruct (keyInt tsa d <? 0) eqn:Hk'; [apply Z.ltb_lt in Hk'; lia|].
      by rewrite Href.
    + apply lookup_ge_None in Href. rewrite keyInt_valid in * by done.
      unfold validWindow in Hd. lia.
Qed.

Lemma Percentage_returns tsa lastTV :
  mu tsa = false -> last (TimeSeries tsa) = Some lastTV ->
  Forall validWindow (_DurationInMinutes tsa) ->
  Percentage tsa
  = Returned (Some (foldl (fun s d => <[d := windowResult tsa lastTV d]> s) ∅
                          (_DurationInMinutes tsa)), None).
Proof.
  intros Hmu Hlast Hvalid. unfold Percentage. rewrite Hmu, Hlast.
  rewrite (percentage_windows _ _ (windowResult tsa lastTV)); [done|].
  intros d Hd. apply percentageWindow_valid.
  - intros Hnil. by rewrite Hnil in Hlast.
  - by eapply Forall_forall in Hvalid.
Qed.

(** ** The empty store *)

(** C6. [Percentage] returns its "not collected yet" error exactly when
    the store holds no snapshot, and then it returns no data; no other
    error is ever returned. *)
Theorem Percentage_error_iff_empty (tsa : TimeSeriesAverage) :
  mu tsa = false ->
  (TimeSeries tsa = [] <-> Percentage tsa = Returned (None, Some notCollected))
  /\ (forall data e, Percentage tsa = Returned (data, Some e) ->
        TimeSeries tsa = [] /\ data = None /\ e = notCollected).
Proof.
  intros Hmu. unfold Percentage. rewrite Hmu.
  destruct (last (TimeSeries tsa)) as [lastTV|] eqn:Hlast.
  - assert (TimeSeries tsa <> []) as Hne by (intros E; by rewrite E in Hlast).
    split; [split; [done|]|]; intros;
      destruct (foldl _ _ _); simplify_eq/=.
  - apply last_None in Hlast. split; [done|]. intros ?? [= <- <-]. done.
Qed.

Lemma Percentage_error_iff_empty_witness :
  ([] = @nil TimeValue <->
   Percentage (mkTSA [] false [1]) = Returned (None, Some notCollected))
  /\ (forall data e, Percentage (mkTSA [] false [1]) = Returned (data, Some e) ->
        [] = @nil TimeValue /\ data = None /\ e = notCollected).
Proof. apply (Percentage_error_iff_empty (mkTSA [] false [1])). reflexivity. Defined.

(** ** Rates *)

Lemma float_sub_zero (x : float) : (x - 0)%float = x.
Proof.
  apply Prim2SF_inj. rewrite sub_spec.
  change (Prim2SF 0) with (S754_zero false).
  unfold SF64sub. by destruct (Prim2SF x) as [[]|[]| |[] m e].
Qed.



Section Window.

Variables (tsa : TimeSeriesAverage) (lastTV : TimeValue).
Hypothesis Hmu : mu tsa = false.
Hypothesis Hlast : last (TimeSeries tsa) = Some lastTV.
Hypothesis Hvalid : Forall validWindow (_DurationInMinutes tsa).

(** The result of [Percentage] on a store that is not empty: every
    configured window has its entry. *)
Lemma Percentage_window (d : Z) :
  d ∈ _DurationInMinutes tsa ->
  exists sum, Percentage tsa = Returned (Some sum, None)
              /\ sum !! d = Some (windowResult tsa lastTV d).
Proof.
  intros Hd. eexists. split; [by apply Percentage_returns|].
  rewrite foldl_insert_lookup. by rewrite decide_True.
Qed.

Lemma Percentage_window_rate (d : Z) (ref : TimeValue) (key : string)
    (lastVal : float) :
  d ∈ _DurationInMinutes tsa ->
  0 <= keyInt tsa d ->
  TimeSeries tsa !! Z.to_nat (keyInt tsa d) = Some ref ->
  Values lastTV !! key = Some lastVal ->
  exists sum m, Percentage tsa = Returned (Some sum, None)
                /\ sum !! d = Some m
                /\ m !! key = Some (rateOf lastTV ref key lastVal).
Proof.
  intros Hd Hk Href Hkey.
  destruct (Percentage_window d Hd) as (sum & Hsum & Hsumd).
  exists sum, (windowResult tsa lastTV d). split; [done|]. split; [done|].
  unfold windowResult.
  destruct (keyInt tsa d <? 0) eqn:E; [apply Z.ltb_lt in E; lia|].
  rewrite Href, map_lookup_imap, Hkey. done.
Qed.

Lemma Percentage_window_unavailable (d : Z) :
  d ∈ _DurationInMinutes tsa ->
  keyInt tsa d < 0 ->
  exists sum, Percentage tsa = Returned (Some sum, None)
              /\ sum !! d = Some ((fun _ => (-1)%float) <$> Values lastTV).
Proof.
  intros Hd Hk.
  destruct (Percentage_window d Hd) as (sum & Hsum & Hsumd).
  exists sum. split; [done|]. rewrite Hsumd. f_equal.
  unfold windowResult.
  destruct (keyInt tsa d <? 0) eqn:E; [|apply Z.ltb_ge in E; lia].
  apply map_eq. intros k. rewrite map_lookup_imap, lookup_fmap.
  by destruct (Values lastTV !! k).
Qed.

End Window.





(** C10.  When a key of the latest snapshot is absent from the
    reference snapshot, its rate is computed with 0 for the reference
    value: the latest value over the elapsed seconds (rounded like every
    rate); the key is neither left out nor marked unavailable. *)
Theorem Percentage_missing_reference_key (tsa : TimeSeriesAverage)
    (lastTV ref : TimeValue) (d : Z) (key : string) (lastVal : float) :
  mu tsa = false ->
  last (TimeSeries tsa) = Some lastTV ->
  Forall validWindow (_DurationInMinutes tsa) ->
  d ∈ _DurationInMinutes tsa ->
  0 <= keyInt tsa d ->
  TimeSeries tsa !! Z.to_nat (keyInt tsa d) = Some ref ->
  Values lastTV !! key = Some lastVal ->
  Values ref !! key = None ->
  exists sum m,
    Percentage tsa = Returned (Some sum, None)
    /\ sum !! d = Some m
    /\ m !! key
       = Some (round4 (lastVal
                       / time.Seconds (time.Sub (Time lastTV) (Time ref))))%float.
Proof.
  intros Hmu Hlast Hvalid Hd Hk Href Hkey Hmissing.
  destruct (Percentage_window_rate tsa lastTV Hmu Hlast Hvalid d ref key
              lastVal Hd Hk Href Hkey) as (sum & m & Hsum & Hsumd & Hm).
  exists sum, m. split; [done|]. split; [done|].
  rewrite Hm. unfold rateOf, valueOf. rewrite Hmissing. simpl.
  by rewrite float_sub_zero.
Qed.

Lemma Percentage_missing_reference_key_witness :
  exists sum m, Percentage lateKeyStore = Returned (Some sum, None)
                /\ sum !! 1 = Some m
                /\ m !! "steal.%d.cpu0" = Some (4000 / 10000)%float.
Proof.
  destruct (Percentage_missing_reference_key lateKeyStore
              (mkTimeValue (55 * time.Second) {[ "steal.%d.cpu0" := 22%float ]})
              (mkTimeValue 0 ∅) 1 "steal.%d.cpu0" 22%float)
    as (sum & m & Hsum & Hd & Hkey).
  - reflexivity.
  - reflexivity.
  - constructor; [unfold validWindow, maxWindow; lia|constructor].
  - left.
  - vm_compute. discriminate.
  - reflexivity.
  - reflexivity.
  - reflexivity.
  - exists sum, m. split; [exact Hsum|]. split; [exact Hd|].
    rewrite Hkey. vm_compute. reflexivity.
Defined.

(** ** Pruning *)

Lemma Sub_mono now t t' : t <= t' -> time.Sub now t' <= time.Sub now t.
Proof. unfold time.Sub. lia. Qed.

Lemma Sub_self t : time.Sub t t = 0.
Proof. unfold time.Sub, Num.minInt64, Num.maxInt64. lia. Qed.

Lemma Sub_le_real a b m :
  m < Num.maxInt64 -> time.Sub a b <= m -> a - b <= m.
Proof. unfold time.Sub, Num.minInt64, Num.maxInt64. lia. Qed.

Lemma prune_sorted now durations dm ts :
  last durations = Some dm ->
  StronglySorted Z.lt (Time <$> ts) ->
  exists ts', prune now durations ts = Returned ts'
              /\ ts' `suffix_of` ts
              /\ Forall (fun tv => time.Sub now (Time tv) <= minutes dm) ts'.
Proof.
  intros Hdm. induction ts as [|tv rest IH]; intros Hsorted.
  - exists []. by repeat split.
  - cbn [prune]. rewrite Hdm.
    rewrite fmap_cons in Hsorted. apply StronglySorted_inv in Hsorted as [Hrest Hhd].
    destruct (minutes dm <? time.Sub now (Time tv)) eqn:Hold.
    + destruct (IH Hrest) as (ts' & Hprune & Hsuffix & Hall).
      exists ts'. split; [done|]. split; [by apply suffix_cons_r|done].
    + apply Z.ltb_ge in Hold. exists (tv :: rest). split; [done|].
      split; [done|]. constructor; [done|].
      rewrite Forall_fmap in Hhd. eapply Forall_impl; [exact Hhd|].
      intros tv' Hlt. simpl in Hlt.
      pose proof (Sub_mono now (Time tv) (Time tv')). lia.
Qed.

Lemma sorted_last_max (l : list Z) (x : Z) :
  StronglySorted Z.le l -> last l = Some x -> forall y, y ∈ l -> y <= x.
Proof.
  induction l as [|a l IH]; intros Hs Hlast y Hy; [by apply elem_of_nil in Hy|].
  apply StronglySorted_inv in Hs as [Hs Ha].
  destruct l as [|b l].
  - apply list_elem_of_singleton in Hy. simpl in Hlast. simplify_eq. lia.
  - rewrite last_cons_cons in Hlast.
    apply elem_of_cons in Hy as [->|Hy]; [|by apply IH].
    eapply Forall_forall in Ha; [exact Ha|]. by apply last_Some_elem_of.
Qed.

Lemma sort_Ints_max (durations : list Z) :
  durations <> [] ->
  exists dmax, last (sort_Ints durations) = Some dmax
               /\ dmax ∈ durations
               /\ forall d, d ∈ durations -> d <= dmax.
Proof.
  intros Hne. unfold sort_Ints.
  pose proof (merge_sort_Permutation Z.le durations) as Hperm.
  destruct (last (merge_sort Z.le durations)) as [dmax|] eqn:Hlast.
  - exists dmax. split; [done|]. split.
    + rewrite <- Hperm. by apply last_Some_elem_of.
    + intros d Hd. eapply sorted_last_max; [|exact Hlast|by rewrite Hperm].
      apply StronglySorted_merge_sort; apply _.
  - apply last_None in Hlast. rewrite Hlast in Hperm.
    symmetry in Hperm. by apply Permutation_nil_r in Hperm.
Qed.

Lemma Adds_invariant dm calls tsa :
  last (_DurationInMinutes tsa) = Some dm ->
  0 <= minutes dm ->
  StronglySorted Z.lt ((Time <$> TimeSeries tsa) ++ calls.*1) ->
  exists tsa',
    Adds calls tsa = Returned tsa'
    /\ TimeSeries tsa' `suffix_of` (TimeSeries tsa ++ (snapshotOf <$> calls))
    /\ (calls <> [] -> last (TimeSeries tsa') = snapshotOf <$> last calls)
    /\ forall now, last (calls.*1) = Some now ->
         Forall (fun tv => time.Sub now (Time tv) <= minutes dm)
                (TimeSeries tsa').
Proof.
  intros Hdm Hpos. revert tsa Hdm.
  induction calls as [|[t values] rest IH]; intros tsa Hdm Hsorted.
  - exists tsa. split; [done|]. rewrite app_nil_r. by repeat split.
  - cbn [Adds]. unfold Add.
    assert (StronglySorted Z.lt (Time <$> TimeSeries tsa)) as Hts
      by (by apply StronglySorted_app_1_l in Hsorted).
    destruct (prune_sorted t _ dm _ Hdm Hts) as (ts' & Hprune & Hsuffix & Hall).
    rewrite Hprune. simpl.
    set (tsa1 := {| TimeSeries := (ts' ++ [mkTimeValue t values])%list;
                    mu := mu tsa;
                    _DurationInMinutes := _DurationInMinutes tsa |}).
    destruct Hsuffix as [pre Hpre].
    destruct (IH tsa1 Hdm) as (tsa' & Hadds & Hsuf' & Hlast' & Hall').
    { simpl. rewrite fmap_app, <- app_assoc. simpl.
      rewrite Hpre, fmap_app, <- app_assoc in Hsorted.
      by apply StronglySorted_app_1_r in Hsorted. }
    exists tsa'. split; [done|]. split; [|split].
    + etrans; [exact Hsuf'|]. simpl. rewrite Hpre, <- !app_assoc. simpl.
      by apply suffix_app_r.
    + intros _. destruct rest as [|c rest'].
      * simpl in Hadds. simplify_eq. simpl. by rewrite last_snoc.
      * rewrite Hlast' by done. by rewrite last_cons_cons.
    + intros now Hnow. destruct rest as [|c rest'].
      * simpl in Hadds, Hnow. simplify_eq. simpl.
        apply Forall_app. split; [done|]. constructor; [|done].
        simpl. rewrite Sub_self. done.
      * apply Hall'. rewrite !fmap_cons in Hnow.
        rewrite last_cons_cons in Hnow. by rewrite fmap_cons.
Qed.

(** C4.  From the empty store, after any sequence of [Add] calls with
    strictly increasing timestamps (each made at its timestamp) and a
    non-empty set of windows, every snapshot left in the store is at
    most the largest window old; the store is a suffix of what was
    appended (pruning is from the front) and ends with the newest
    snapshot. *)
Theorem Add_keeps_largest_window (durations : list Z)
    (calls : list (Z * gmap string float)) (held : bool) :
  durations <> [] ->
  Forall validWindow durations ->
  Sorted Z.lt (calls.*1) ->
  exists tsa dmax,
    Adds calls (SetDurationsMinutes durations (mkTSA [] held [])) = Returned tsa
    /\ dmax ∈ durations
    /\ (forall d, d ∈ durations -> d <= dmax)
    /\ TimeSeries tsa `suffix_of` (snapshotOf <$> calls)
    /\ (calls <> [] -> last (TimeSeries tsa) = snapshotOf <$> last calls)
    /\ forall now, last (calls.*1) = Some now ->
         Forall (fun tv => now - Time tv <= time.Minute * dmax) (TimeSeries tsa).
Proof.
  intros Hne Hvalid Hsorted.
  destruct (sort_Ints_max durations Hne) as (dmax & Hlast & Hin & Hmax).
  assert (validWindow dmax) as Hdmax by (by eapply Forall_forall in Hvalid).
  pose proof (minutes_valid dmax Hdmax) as Hmin.
  destruct (Adds_invariant dmax calls
              (SetDurationsMinutes durations (mkTSA [] held [])))
    as (tsa & Hadds & Hsuffix & Hnewest & Hall).
  - done.
  - unfold validWindow in Hdmax. lia.
  - simpl. by apply Sorted_StronglySorted; [apply _|].
  - exists tsa, dmax. repeat split; try done.
    intros now Hnow. eapply Forall_impl; [by apply Hall|].
    intros tv Htv. simpl in Htv. apply Sub_le_real.
    + unfold validWindow, maxWindow in Hdmax.
      unfold time.Minute, time.Second, Num.maxInt64. lia.
    + rewrite Hmin in Htv. unfold time.Minute, time.Second. lia.
Qed.

Lemma Add_keeps_largest_window_witness :
  exists tsa dmax,
    Adds sampleCalls (SetDurationsMinutes [5; 1] (mkTSA [] false [])) = Returned tsa
    /\ dmax ∈ [5; 1]
    /\ (forall d, d ∈ [5; 1] -> d <= dmax)
    /\ TimeSeries tsa `suffix_of` (snapshotOf <$> sampleCalls)
    /\ (sampleCalls <> [] -> last (TimeSeries tsa) = snapshotOf <$> last sampleCalls)
    /\ forall now, last (sampleCalls.*1) = Some now ->
         Forall (fun tv => now - Time tv <= time.Minute * dmax) (TimeSeries tsa).
Proof.
  apply (Add_keeps_largest_window [5; 1] sampleCalls false).
  - discriminate.
  - repeat (constructor; [unfold validWindow, maxWindow; lia|]). constructor.
  - repeat constructor; reflexivity.
Defined.

(** The oldest of the three snapshots is 400 seconds old at the third
    call and leaves the five-minute store. *)
Example Adds_sampleCalls :
  (fun tsa => Time <$> TimeSeries tsa)
    <$> (match Adds sampleCalls (SetDurationsMinutes [5; 1] (mkTSA [] false [])) with
         | Returned tsa => Some tsa
         | _ => None
         end)
  = Some [200 * time.Second; 400 * time.Second].
Proof. reflexivity. Qed.

(** ** A failed sample *)

Lemma Once_failed err now stat :
  mu (UtilAvg stat) = false ->
  Once (inl err) now stat
  = Returned (Some err, withUtilAvg stat (withMu (UtilAvg stat) true)).
Proof. intros Hmu. unfold Once. by rewrite Hmu. Qed.

Lemma Once_blocked times now stat :
  mu (UtilAvg stat) = true -> Once times now stat = Blocked.
Proof. intros Hmu. unfold Once. by rewrite Hmu. Qed.

(** C1.  When the CPU-times query fails, [Once] returns the error and
    leaves the store as it was, but it returns with the mutex still
    held: every later [Once] and every [Results] blocks on it, and [Run]
    never completes its next iteration. *)
Theorem Once_failure_holds_mutex (err : string) (now : Z) (stat : CPUWatcher) :
  mu (UtilAvg stat) = false ->
  exists stat',
    Once (inl err) now stat = Returned (Some err, stat')
    /\ TimeSeries (UtilAvg stat') = TimeSeries (UtilAvg stat)
    /\ mu (UtilAvg stat') = true
    /\ (forall times now', Once times now' stat' = Blocked)
    /\ (forall avg, Results avg stat' = Blocked)
    /\ (forall tick ticks, Run ((inl err, now) :: tick :: ticks) stat = Blocked).
Proof.
  intros Hmu. eexists. split; [by apply Once_failed|].
  split; [done|]. split; [done|]. split; [done|]. split; [done|].
  intros [times now'] ticks. cbn [Run]. rewrite Once_failed by done.
  simpl. by rewrite ?Once_blocked.
Qed.

Lemma Once_failure_holds_mutex_witness :
  exists stat',
    Once (inl "context deadline exceeded") 0
         (Cagent_CPUWatcher "linux" (inl "n/a") (mkCagent [] ["avg1"] ["user"]))
    = Returned (Some "context deadline exceeded", stat')
    /\ mu (UtilAvg stat') = true
    /\ Once (inr []) 5000000000 stat' = Blocked
    /\ Results (inl "n/a") stat' = Blocked.
Proof.
  destruct (Once_failure_holds_mutex "context deadline exceeded" 0
              (Cagent_CPUWatcher "linux" (inl "n/a") (mkCagent [] ["avg1"] ["user"])))
    as (stat' & Honce & _ & Hheld & Hblocked & Hresults & _).
  - reflexivity.
  - exists stat'. split; [exact Honce|]. split; [exact Hheld|].
    split; [apply Hblocked|apply Hresults].
Defined.

(** ** No window configured *)

Lemma loadFlags_UtilAvg gather stat :
  UtilAvg (loadFlags gather stat) = UtilAvg stat.
Proof.
  unfold loadFlags. revert stat.
  induction gather as [|d gather IH]; intros stat; [done|].
  cbn [foldl]. rewrite IH. unfold loadFlag. by repeat case_match.
Qed.

Lemma Cagent_CPUWatcher_UtilAvg GOOS avg ca :
  UtilAvg (Cagent_CPUWatcher GOOS avg ca)
  = mkTSA [] false (sort_Ints (utilDurations (CPUUtilDataGather ca))).
Proof.
  unfold Cagent_CPUWatcher, withUtilAvg, withMu, SetDurationsMinutes.
  cbn [UtilAvg TimeSeries mu _DurationInMinutes]. f_equal.
  destruct (CPULoadDataGather ca) as [|g gather]; [done|].
  destruct avg as [err|loadAvg]; [destruct (err =? _)%string; [done|]|];
    by rewrite loadFlags_UtilAvg.
Qed.

(** C7.  A watcher configured with no utilisation window takes its
    first sample, and its second sample panics in [Add]: the largest
    window is read from an empty list as soon as the store holds a
    snapshot. *)
Theorem Once_panics_without_windows (GOOS : string) (avg : query load.AvgStat)
    (ca : Cagent) (times1 times2 : list cpu.TimesStat) (now1 now2 : Z) :
  utilDurations (CPUUtilDataGather ca) = [] ->
  (exists stat1,
     Once (inr times1) now1 (Cagent_CPUWatcher GOOS avg ca) = Returned (None, stat1)
     /\ Once (inr times2) now2 stat1 = Panicked "index out of range [-1]")
  /\ Run [(inr times1, now1); (inr times2, now2)] (Cagent_CPUWatcher GOOS avg ca)
     = Panicked "index out of range [-1]".
Proof.
  intros Hnone.
  pose proof (Cagent_CPUWatcher_UtilAvg GOOS avg ca) as Hutil.
  rewrite Hnone in Hutil. change (sort_Ints []) with (@nil Z) in Hutil.
  assert (forall stat1,
    Once (inr times1) now1 (Cagent_CPUWatcher GOOS avg ca) = Returned (None, stat1) ->
    Once (inr times2) now2 stat1 = Panicked "index out of range [-1]") as Hsecond.
  { unfold Once at 1. rewrite Hutil. simpl. intros stat1 [= <-]. done. }
  assert (exists stat1,
    Once (inr times1) now1 (Cagent_CPUWatcher GOOS avg ca) = Returned (None, stat1))
    as [stat1 Hfirst].
  { unfold Once. rewrite Hutil. simpl. by eexists. }
  split.
  - exists stat1. split; [done|]. by apply Hsecond.
  - cbn [Run]. rewrite Hfirst. simpl. rewrite (Hsecond stat1 Hfirst). done.
Qed.

Lemma Once_panics_without_windows_witness :
  Run [(inr [cpu.mkTimesStat 1 1 1 1 1 1 1 1], 0);
       (inr [cpu.mkTimesStat 2 2 2 2 2 2 2 2], 5000000000)]
      (Cagent_CPUWatcher "linux" (inl "n/a") (mkCagent ["avg1"] [] ["user"]))
  = Panicked "index out of range [-1]".
Proof.
  apply (Once_panics_without_windows "linux" (inl "n/a")
           (mkCagent ["avg1"] [] ["user"])).
  reflexivity.
Defined.

(** ** The result mapping *)

Lemma utilWindow_origin d m acc name x :
  utilWindow d m acc !! name = Some x ->
  acc !! name = Some x
  \/ exists k v, m !! k = Some v /\ name = utilName k d /\ x = measurement v.
Proof.
  unfold utilWindow. revert name x.
  apply (map_fold_weak_ind (fun r m => forall name x,
    r !! name = Some x ->
    acc !! name = Some x
    \/ exists k v, m !! k = Some v /\ name = utilName k d /\ x = measurement v));
    clear m.
  - intros name x Hx. by left.
  - intros k v m r Hk IH name x Hx.
    destruct (decide (utilName k d = name)) as [<-|Hne].
    + rewrite lookup_insert_eq in Hx. simplify_eq. right. exists k, v.
      by rewrite lookup_insert_eq.
    + rewrite lookup_insert_ne in Hx by done.
      destruct (IH name x Hx) as [Hacc|(k' & v' & Hk' & -> & ->)]; [by left|].
      right. exists k', v'. rewrite lookup_insert_ne; [done|]. congruence.
Qed.

Lemma utilWindow_present d m acc :
  (forall name, is_Some (acc !! name) -> is_Some (utilWindow d m acc !! name))
  /\ (forall k v, m !! k = Some v -> is_Some (utilWindow d m acc !! utilName k d)).
Proof.
  unfold utilWindow.
  apply (map_fold_weak_ind (fun r m =>
    (forall name, is_Some (acc !! name) -> is_Some (r !! name))
    /\ (forall k v, m !! k = Some v -> is_Some (r !! utilName k d)))); clear m.
  - split; [done|]. intros k v Hk. by rewrite lookup_empty in Hk.
  - intros k v m r Hk [IHacc IHm]. split.
    + intros name Hname. rewrite lookup_insert. case_decide; [done|]. by apply IHacc.
    + intros k' v' Hk'. rewrite lookup_insert. case_decide; [done|].
      destruct (decide (k = k')) as [->|Hne]; [done|].
      rewrite lookup_insert_ne in Hk' by done. by eapply IHm.
Qed.

Lemma utilResults_origin util acc name x :
  utilResults util acc !! name = Some x ->
  acc !! name = Some x
  \/ exists d m k v, util !! d = Some m /\ m !! k = Some v
                     /\ name = utilName k d /\ x = measurement v.
Proof.
  unfold utilResults. revert name x.
  apply (map_fold_weak_ind (fun r util => forall name x,
    r !! name = Some x ->
    acc !! name = Some x
    \/ exists d m k v, util !! d = Some m /\ m !! k = Some v
                       /\ name = utilName k d /\ x = measurement v));
    clear util.
  - intros name x Hx. by left.
  - intros d m util r Hd IH name x Hx.
    apply utilWindow_origin in Hx as [Hr|(k & v & Hk & -> & ->)].
    + destruct (IH name x Hr) as [Hacc|(d' & m' & k & v & Hd' & Hk & -> & ->)];
        [by left|].
      right. exists d', m', k, v. rewrite lookup_insert_ne; [done|]. congruence.
    + right. exists d, m, k, v. by rewrite lookup_insert_eq.
Qed.

Lemma utilResults_present util acc :
  (forall name, is_Some (acc !! name) -> is_Some (utilResults util acc !! name))
  /\ (forall d m k v, util !! d = Some m -> m !! k = Some v ->
        is_Some (utilResults util acc !! utilName k d)).
Proof.
  unfold utilResults.
  apply (map_fold_weak_ind (fun r util =>
    (forall name, is_Some (acc !! name) -> is_Some (r !! name))
    /\ (forall d m k v, util !! d = Some m -> m !! k = Some v ->
          is_Some (r !! utilName k d)))); clear util.
  - split; [done|]. intros d m k v Hd. by rewrite lookup_empty in Hd.
  - intros d m util r Hd [IHacc IHutil]. split.
    + intros name Hname. apply utilWindow_present. by apply IHacc.
    + intros d' m' k v Hd' Hk.
      destruct (decide (d = d')) as [->|Hne].
      * rewrite lookup_insert_eq in Hd'. simplify_eq.
        by eapply utilWindow_present.
      * rewrite lookup_insert_ne in Hd' by done.
        apply utilWindow_present. by eapply IHutil.
Qed.

(** The entry of a window and key whose name no other entry shares
    with a different value. *)
Lemma utilResults_lookup util d m k v :
  util !! d = Some m -> m !! k = Some v ->
  (forall d' m' k' v', util !! d' = Some m' -> m' !! k' = Some v' ->
     utilName k' d' = utilName k d -> measurement v' = measurement v) ->
  utilResults util ∅ !! utilName k d = Some (measurement v).
Proof.
  intros Hd Hk Hapart.
  destruct (proj2 (utilResults_present util ∅) d m k v Hd Hk) as [x Hx].
  rewrite Hx. f_equal.
  apply utilResults_origin in Hx as [Hx|(d' & m' & k' & v' & Hd' & Hk' & Hname & ->)].
  - by rewrite lookup_empty in Hx.
  - by eapply Hapart.
Qed.

Lemma utilResults_no_load util name :
  (name = "load.avg.1" \/ name = "load.avg.5" \/ name = "load.avg.15")%string ->
  utilResults util ∅ !! name = None.
Proof.
  intros Hname. destruct (utilResults util ∅ !! name) as [x|] eqn:Hx; [|done].
  apply utilResults_origin in Hx as [Hx|(d & m & k & v & _ & _ & -> & _)].
  - by rewrite lookup_empty in Hx.
  - unfold utilName in Hname. simpl in Hname.
    destruct Hname as [?|[?|?]]; discriminate.
Qed.


Lemma loadResults_keeps cs loadAvg (base : gmap string Measurement) :
  base !! "load.avg.1" = None -> base !! "load.avg.5" = None ->
  base !! "load.avg.15" = None ->
  base ⊆ loadResults cs loadAvg base.
Proof.
  intros H1 H5 H15. unfold loadResults.
  destruct (LoadAvg1 cs), (LoadAvg5 cs), (LoadAvg15 cs);
    repeat (etrans; [|apply insert_subseteq;
                       rewrite ?lookup_insert_ne by done; done]); done.
Qed.

(** [Results] returns whenever [Percentage] does, with every
    utilisation entry. *)
Lemma Results_keeps_util avg cs util perr :
  Percentage (UtilAvg cs) = Returned (util, perr) ->
  exists results err,
    Results avg cs = Returned (results, err)
    /\ utilResults (default ∅ util) ∅ ⊆ results.
Proof.
  intros Hperc. unfold Results. rewrite Hperc.
  cbn [mbind outcome_bind fst snd].
  destruct (LoadAvg1 cs || LoadAvg5 cs || LoadAvg15 cs);
    [destruct avg as [e|loadAvg]|]; eexists _, _; (split; [done|]); try done.
  apply loadResults_keeps; apply utilResults_no_load; auto.
Qed.



(** ** Keys *)

Lemma string_app_cons c (s r : string) :
  (String c s +:+ r)%string = String c (s +:+ r).
Proof. reflexivity. Qed.

Lemma string_app_nil_l (r : string) : ("" +:+ r)%string = r.
Proof. reflexivity. Qed.

Ltac sapp := rewrite ?string_app_cons, ?string_app_nil_l.
Tactic Notation "sapp" "in" hyp(H) :=
  rewrite ?string_app_cons, ?string_app_nil_l in H.

Lemma string_app_nil_r (s : string) : (s +:+ "")%string = s.
Proof. induction s as [|c s IH]; [done|]. sapp. by rewrite IH. Qed.

Lemma string_app_assoc (a b c : string) :
  ((a +:+ b) +:+ c = a +:+ (b +:+ c))%string.
Proof. induction a as [|x a IH]; [done|]. sapp. by rewrite IH. Qed.

Lemma cpuKey_eq t i : cpuKey t i = (t +:+ ".%d.cpu" +:+ pretty i)%string.
Proof. unfold cpuKey. simpl. sapp. by rewrite string_app_nil_r. Qed.

Lemma totalKey_eq t : totalKey t = (t +:+ ".%d.total")%string.
Proof. unfold totalKey. simpl. by sapp. Qed.

(** Two strings that agree after a first occurrence of [c] agree
    before it. *)
Lemma app_split_char c (a a' r r' : string) :
  hasChar c a = false -> hasChar c a' = false ->
  (a +:+ String c r = a' +:+ String c r')%string -> a = a' /\ r = r'.
Proof.
  revert a'. induction a as [|x a IH]; intros [|x' a'] Ha Ha' Heq;
    sapp in Heq; simpl in Ha, Ha'.
  - by simplify_eq.
  - simplify_eq. by rewrite Ascii.eqb_refl in Ha'.
  - simplify_eq. by rewrite Ascii.eqb_refl in Ha.
  - apply orb_false_elim in Ha as [_ Ha]. apply orb_false_elim in Ha' as [_ Ha'].
    injection Heq as -> Heq. destruct (IH a' Ha Ha' Heq) as [-> ->]. done.
Qed.

Section Keys.

Variables t t' : string.
Hypothesis Ht : hasChar "." t = false.
Hypothesis Ht' : hasChar "." t' = false.

Lemma totalKey_inj : totalKey t = totalKey t' -> t = t'.
Proof.
  rewrite !totalKey_eq. intros H.
  by destruct (app_split_char "." t t' _ _ Ht Ht' H).
Qed.

Lemma cpuKey_inj i i' : cpuKey t i = cpuKey t' i' -> t = t' /\ i = i'.
Proof.
  rewrite !cpuKey_eq. intros H.
  destruct (app_split_char "." t t' _ _ Ht Ht' H) as [-> Hrest].
  split; [done|]. sapp in Hrest. simplify_eq.
  by apply (inj pretty).
Qed.

Lemma totalKey_cpuKey i : totalKey t <> cpuKey t' i.
Proof.
  rewrite totalKey_eq, cpuKey_eq. intros H.
  destruct (app_split_char "." t t' _ _ Ht Ht' H) as [_ Hrest].
  sapp in Hrest. discriminate.
Qed.

End Keys.

Lemma cpuValue_recognised t c :
  cpuValue t c = if recognised t then Some (counter t c) else None.
Proof.
  unfold recognised, counter, cpuValue. by repeat case_match.
Qed.

Lemma recognised_names t :
  recognised t = true ->
  t ∈ ["system"; "user"; "nice"; "idle"; "iowait"; "irq"; "softirq"; "steal"]%string.
Proof.
  unfold recognised, cpuValue.
  destruct (String.eqb_spec t "system") as [->|_]; [intros _; set_solver|].
  destruct (String.eqb_spec t "user") as [->|_]; [intros _; set_solver|].
  destruct (String.eqb_spec t "nice") as [->|_]; [intros _; set_solver|].
  destruct (String.eqb_spec t "idle") as [->|_]; [intros _; set_solver|].
  destruct (String.eqb_spec t "iowait") as [->|_]; [intros _; set_solver|].
  destruct (String.eqb_spec t "irq") as [->|_]; [intros _; set_solver|].
  destruct (String.eqb_spec t "softirq") as [->|_]; [intros _; set_solver|].
  destruct (String.eqb_spec t "steal") as [->|_]; [intros _; set_solver|].
  done.
Qed.

Lemma recognised_plain t : recognised t = true -> hasChar "." t = false.
Proof.
  intros H. apply recognised_names in H.
  repeat (apply elem_of_cons in H as [->|H]; [done|]).
  by apply elem_of_nil in H.
Qed.

Lemma enabled_cons u utypes :
  enabled (u :: utypes)
  = if recognised (strings.ToLower u)
    then strings.ToLower u :: enabled utypes else enabled utypes.
Proof.
  unfold enabled. rewrite fmap_cons, filter_cons.
  destruct (recognised (strings.ToLower u)); by case_decide.
Qed.

Lemma enabled_recognised utypes t : t ∈ enabled utypes -> recognised t = true.
Proof. unfold enabled. rewrite list_elem_of_filter. tauto. Qed.

(** ** The sampling loops *)

Lemma sampleType_recognised i c values u :
  recognised (strings.ToLower u) = true ->
  sampleType i c values u
  = <[totalKey (strings.ToLower u) :=
        (valueOf values (totalKey (strings.ToLower u))
         + counter (strings.ToLower u) c)%float]>
      (<[cpuKey (strings.ToLower u) i := counter (strings.ToLower u) c]> values).
Proof.
  intros Hrec. unfold sampleType. rewrite cpuValue_recognised, Hrec.
  cbv zeta. f_equal. unfold valueOf. rewrite lookup_insert_ne; [done|].
  intros Heq. symmetry in Heq. revert Heq.
  by apply totalKey_cpuKey; apply recognised_plain.
Qed.

Lemma sampleType_skipped i c values u :
  recognised (strings.ToLower u) = false -> sampleType i c values u = values.
Proof.
  intros Hrec. unfold sampleType. by rewrite cpuValue_recognised, Hrec.
Qed.

Section InnerLoop.

Variables (i : Z) (c : cpu.TimesStat).

(** A key that no enabled type writes for core [i] is left alone. *)
Lemma inner_frame utypes values k :
  (forall t, t ∈ enabled utypes -> k <> cpuKey t i /\ k <> totalKey t) ->
  foldl (sampleType i c) values utypes !! k = values !! k.
Proof.
  revert values. induction utypes as [|u utypes IH]; intros values Hk; [done|].
  cbn [foldl]. rewrite enabled_cons in Hk.
  destruct (recognised (strings.ToLower u)) eqn:Hrec.
  - rewrite IH by (intros t Ht; apply Hk; by right).
    rewrite sampleType_recognised by done.
    destruct (Hk (strings.ToLower u)) as [Hcpu Htotal]; [left|].
    by rewrite !lookup_insert_ne.
  - rewrite IH by done. by rewrite sampleType_skipped.
Qed.

Lemma inner_cpu utypes values t :
  t ∈ enabled utypes ->
  foldl (sampleType i c) values utypes !! cpuKey t i = Some (counter t c).
Proof.
  revert values. induction utypes as [|u utypes IH]; intros values Ht.
  - by apply elem_of_nil in Ht.
  - cbn [foldl]. destruct (decide (t ∈ enabled utypes)) as [Hin|Hout];
      [by apply IH|].
    rewrite enabled_cons in Ht.
    destruct (recognised (strings.ToLower u)) eqn:Hrec; [|done].
    apply elem_of_cons in Ht as [->|Ht]; [|done].
    rewrite inner_frame.
    + rewrite sampleType_recognised by done.
      rewrite lookup_insert_ne, lookup_insert_eq; [done|].
      by apply totalKey_cpuKey; apply recognised_plain.
    + intros t' Ht'. pose proof (enabled_recognised _ _ Ht') as Hrec'.
      split.
      * intros Heq. apply cpuKey_inj in Heq as [Heq _];
          [by subst t'|by apply recognised_plain..].
      * intros Heq. symmetry in Heq. revert Heq.
        by apply totalKey_cpuKey; apply recognised_plain.
Qed.

Lemma inner_total_present utypes values t :
  t ∈ enabled utypes ->
  is_Some (foldl (sampleType i c) values utypes !! totalKey t).
Proof.
  revert values. induction utypes as [|u utypes IH]; intros values Ht.
  - by apply elem_of_nil in Ht.
  - cbn [foldl]. destruct (decide (t ∈ enabled utypes)) as [Hin|Hout];
      [by apply IH|].
    rewrite enabled_cons in Ht.
    destruct (recognised (strings.ToLower u)) eqn:Hrec; [|done].
    apply elem_of_cons in Ht as [->|Ht]; [|done].
    rewrite inner_frame.
    + rewrite sampleType_recognised by done. by rewrite lookup_insert_eq.
    + intros t' Ht'. pose proof (enabled_recognised _ _ Ht') as Hrec'.
      split.
      * by apply totalKey_cpuKey; apply recognised_plain.
      * intros Heq. apply totalKey_inj in Heq;
          [by subst t'|by apply recognised_plain..].
Qed.

Lemma inner_total utypes values t :
  NoDup (enabled utypes) -> t ∈ enabled utypes ->
  foldl (sampleType i c) values utypes !! totalKey t
  = Some (valueOf values (totalKey t) + counter t c)%float.
Proof.
  revert values. induction utypes as [|u utypes IH]; intros values Hnodup Ht.
  - by apply elem_of_nil in Ht.
  - cbn [foldl]. rewrite enabled_cons in Hnodup, Ht.
    destruct (recognised (strings.ToLower u)) eqn:Hrec;
      [|rewrite sampleType_skipped by done; by apply IH].
    apply NoDup_cons in Hnodup as [Hfresh Hnodup].
    rewrite sampleType_recognised by done.
    apply elem_of_cons in Ht as [->|Ht].
    + rewrite inner_frame; [by rewrite lookup_insert_eq|].
      intros t' Ht'. pose proof (enabled_recognised _ _ Ht') as Hrec'.
      split.
      * by apply totalKey_cpuKey; apply recognised_plain.
      * intros Heq. apply totalKey_inj in Heq;
          [by subst t'|by apply recognised_plain..].
    + rewrite IH by done. do 2 f_equal. unfold valueOf.
      pose proof (enabled_recognised _ _ Ht) as Hrec'.
      rewrite !lookup_insert_ne; [done| |].
      * intros Heq. symmetry in Heq. revert Heq.
        by apply totalKey_cpuKey; apply recognised_plain.
      * intros Heq. apply totalKey_inj in Heq;
          [by subst t|by apply recognised_plain..].
Qed.

End InnerLoop.

Section OuterLoop.

Variable utypes : list string.

Lemma outer_frame i times values k :
  (forall t (j : nat), t ∈ enabled utypes -> (j < length times)%nat ->
     k <> cpuKey t (i + Z.of_nat j) /\ k <> totalKey t) ->
  sampleTimes i times utypes values !! k = values !! k.
Proof.
  revert i values. induction times as [|c rest IH]; intros i values Hk; [done|].
  cbn [sampleTimes]. rewrite IH.
  - apply inner_frame. intros t Ht.
    destruct (Hk t 0%nat Ht) as [Hcpu Htotal]; [simpl; lia|].
    by rewrite Z.add_0_r in Hcpu.
  - intros t j Ht Hj. destruct (Hk t (S j) Ht) as [Hcpu Htotal]; [simpl; lia|].
    by replace (i + 1 + Z.of_nat j) with (i + Z.of_nat (S j)) by lia.
Qed.

Lemma outer_cpu i times values t (j : nat) c :
  t ∈ enabled utypes -> times !! j = Some c ->
  sampleTimes i times utypes values !! cpuKey t (i + Z.of_nat j)
  = Some (counter t c).
Proof.
  intros Ht. revert i j values.
  induction times as [|c0 rest IH]; intros i j values Hj; [done|].
  cbn [sampleTimes]. destruct j as [|j].
  - simpl in Hj. simplify_eq. rewrite Z.add_0_r. rewrite outer_frame.
    + by apply inner_cpu.
    + intros t' j Ht' _. pose proof (enabled_recognised _ _ Ht) as Hrec.
      pose proof (enabled_recognised _ _ Ht') as Hrec'. split.
      * intros Heq. apply cpuKey_inj in Heq as [_ Heq];
          [lia|by apply recognised_plain..].
      * intros Heq. symmetry in Heq. revert Heq.
        by apply totalKey_cpuKey; apply recognised_plain.
  - replace (i + Z.of_nat (S j)) with (i + 1 + Z.of_nat j) by lia.
    by apply IH.
Qed.

Lemma outer_total_present i c rest values t :
  t ∈ enabled utypes ->
  is_Some (sampleTimes i (c :: rest) utypes values !! totalKey t).
Proof.
  intros Ht. revert i c values.
  induction rest as [|c' rest IH]; intros i c values.
  - cbn [sampleTimes]. by apply inner_total_present.
  - change (sampleTimes i (c :: c' :: rest) utypes values)
      with (sampleTimes (i + 1) (c' :: rest) utypes
              (foldl (sampleType i c) values utypes)).
    apply IH.
Qed.

Lemma outer_total i c rest values t :
  NoDup (enabled utypes) -> t ∈ enabled utypes ->
  sampleTimes i (c :: rest) utypes values !! totalKey t
  = Some (foldl PrimFloat.add (valueOf values (totalKey t))
                (counter t <$> c :: rest)).
Proof.
  intros Hnodup Ht. revert i c values.
  induction rest as [|c' rest IH]; intros i c values.
  - cbn [sampleTimes]. by apply inner_total.
  - change (sampleTimes i (c :: c' :: rest) utypes values)
      with (sampleTimes (i + 1) (c' :: rest) utypes
              (foldl (sampleType i c) values utypes)).
    rewrite IH. rewrite (fmap_cons _ c). cbn [foldl]. do 2 f_equal.
    unfold valueOf at 1. by rewrite inner_total.
Qed.

End OuterLoop.

Lemma divide_lookup n keys values k :
  NoDup keys ->
  foldl (divideTotal n) values keys !! k
  = if decide (k ∈ keys)
    then Some (valueOf values k / Num.float64_of_int n)%float
    else values !! k.
Proof.
  revert values. induction keys as [|k0 keys IH]; intros values Hnodup.
  - cbn [foldl]. case_decide as Hin; [by apply elem_of_nil in Hin|done].
  - apply NoDup_cons in Hnodup as [Hfresh Hnodup].
    cbn [foldl]. rewrite IH by done. unfold divideTotal at 1 2, valueOf.
    destruct (decide (k ∈ keys)) as [Hin|Hout].
    + rewrite decide_True by (by right).
      rewrite lookup_insert_ne; [done|]. by intros ->.
    + destruct (decide (k = k0)) as [->|Hne].
      * rewrite decide_True by left. by rewrite lookup_insert_eq.
      * rewrite decide_False by (rewrite elem_of_cons; tauto).
        by rewrite lookup_insert_ne.
Qed.

(** ** The snapshot of one sample *)

Lemma dividedKeys_NoDup : NoDup dividedKeys.
Proof. compute_done. Qed.

Lemma cpuKey_not_divided t i : recognised t = true -> cpuKey t i ∉ dividedKeys.
Proof.
  intros Hrec Hin. unfold dividedKeys in Hin.
  pose proof (recognised_plain _ Hrec) as Hplain.
  repeat (apply elem_of_cons in Hin as [Hin|Hin];
          [symmetry in Hin; revert Hin;
           first [ by apply (totalKey_cpuKey "system")
                 | by apply (totalKey_cpuKey "user")
                 | by apply (totalKey_cpuKey "nice")
                 | by apply (totalKey_cpuKey "idle")
                 | by apply (totalKey_cpuKey "iowait")
                 | by apply (totalKey_cpuKey "interrupt")
                 | by apply (totalKey_cpuKey "softirq")
                 | by apply (totalKey_cpuKey "steal") ]|]).
  by apply elem_of_nil in Hin.
Qed.


Lemma elem_of_cpuKeys utypes n k :
  k ∈ cpuKeys utypes n
  <-> exists t (j : nat), t ∈ utypes /\ (j < n)%nat /\ k = cpuKey t (Z.of_nat j).
Proof.
  unfold cpuKeys. rewrite list_elem_of_bind. split.
  - intros (t & Hk & Ht). apply list_elem_of_fmap in Hk as (j & -> & Hj).
    apply elem_of_seq in Hj. exists t, j. split; [done|]. split; [lia|done].
  - intros (t & j & Ht & Hj & ->). exists t. split; [|done].
    apply list_elem_of_fmap. exists j. split; [done|]. apply elem_of_seq. lia.
Qed.

Lemma Once_appends times now stat stat' :
  Once (inr times) now stat = Returned (None, stat') ->
  last (TimeSeries (UtilAvg stat'))
  = Some (mkTimeValue now (sampleValues times (UtilTypes stat))).
Proof.
  unfold Once. destruct (mu (UtilAvg stat)); [done|].
  unfold Add. cbn [UtilAvg withUtilAvg withMu TimeSeries _DurationInMinutes UtilTypes].
  destruct (prune _ _ _) as [ts| |]; [|done..].
  cbn. intros [= <-]. cbn. apply last_snoc.
Qed.

Section Snapshot.

Variables (times : list cpu.TimesStat) (utypes : list string).

Let n := length times.
Let E := enabled utypes.
Let raw := sampleTimes 0 times utypes ∅.
Let values := sampleValues times utypes.

Lemma values_lookup k :
  values !! k
  = if decide (k ∈ dividedKeys)
    then Some (valueOf raw k / Num.float64_of_int (Z.of_nat n))%float
    else raw !! k.
Proof. apply divide_lookup, dividedKeys_NoDup. Qed.



Lemma raw_present k :
  is_Some (raw !! k)
  <-> k ∈ cpuKeys E n \/ (n <> 0%nat /\ k ∈ totalKeys E).
Proof.
  split.
  - intros Hsome.
    destruct (decide (k ∈ cpuKeys E n)) as [|Hcpu]; [by left|].
    destruct (decide (n <> 0%nat /\ k ∈ totalKeys E)) as [|Htotal]; [by right|].
    exfalso. subst raw. rewrite outer_frame in Hsome.
    { rewrite lookup_empty in Hsome. by destruct Hsome. }
    intros t j Ht Hj. split.
    + intros ->. apply Hcpu, elem_of_cpuKeys. exists t, j.
      rewrite Z.add_0_l. done.
    + intros ->. apply Htotal. split; [subst n; lia|].
      by apply list_elem_of_fmap_2.
  - intros [Hcpu|[Hn Htotal]].
    + apply elem_of_cpuKeys in Hcpu as (t & j & Ht & Hj & ->).
      destruct (lookup_lt_is_Some_2 times j Hj) as [c Hc]. subst raw.
      replace (Z.of_nat j) with (0 + Z.of_nat j) by lia.
      by rewrite (outer_cpu utypes 0 times ∅ t j c).
    + apply list_elem_of_fmap in Htotal as (t & -> & Ht). subst raw n.
      destruct times as [|c rest]; [done|].
      by apply outer_total_present.
Qed.

Lemma snapshot_dom :
  dom values
  =@{gset string}
    list_to_set (cpuKeys E n
                 ++ (if decide (n = 0%nat) then [] else totalKeys E)
                 ++ dividedKeys).
Proof.
  apply set_eq. intros k.
  rewrite elem_of_dom, elem_of_list_to_set, !elem_of_app, values_lookup.
  destruct (decide (k ∈ dividedKeys)) as [Hdiv|Hdiv].
  - split; [tauto|]. intros _. done.
  - rewrite raw_present. destruct (decide (n = 0%nat)) as [Hn|Hn].
    + rewrite elem_of_nil. tauto.
    + tauto.
Qed.

End Snapshot.




(** ** The totals of a sample *)

(** A divided key that no sampled type writes is created by the last
    loop, from the zero value of the map. *)
Lemma snapshot_divided_unsampled times utypes k :
  k ∈ dividedKeys -> k ∉ totalKeys (enabled utypes) ->
  sampleValues times utypes !! k
  = Some (0 / Num.float64_of_int (Z.of_nat (length times)))%float.
Proof.
  intros Hdiv Hout. rewrite values_lookup, decide_True by done.
  do 2 f_equal. unfold valueOf.
  destruct (sampleTimes 0 times utypes ∅ !! k) as [v|] eqn:Hraw; [|done].
  exfalso.
  destruct (proj1 (raw_present times utypes k)) as [Hcpu|[_ Htotal]];
    [by eexists| |done].
  apply elem_of_cpuKeys in Hcpu as (t & j & Ht & _ & ->).
  by apply (cpuKey_not_divided t (Z.of_nat j)), Hdiv;
    apply (enabled_recognised utypes).
Qed.

Lemma totalKeys_enabled utypes t :
  recognised t = true -> t ∉ enabled utypes ->
  totalKey t ∉ totalKeys (enabled utypes).
Proof.
  intros Hrec Hout Hin. apply list_elem_of_fmap in Hin as (t' & Heq & Ht').
  apply totalKey_inj in Heq as ->; [done| |].
  - by apply recognised_plain.
  - by apply recognised_plain, (enabled_recognised utypes).
Qed.

(** The total of [irq] is in no divided key: it stays the sum. *)
Lemma snapshot_irq_total times utypes :
  NoDup (enabled utypes) -> "irq" ∈ enabled utypes -> times <> [] ->
  sampleValues times utypes !! totalKey "irq"
  = Some (fsum (counter "irq" <$> times)).
Proof.
  intros Hnodup Hirq Htimes. rewrite values_lookup.
  rewrite decide_False by compute_done.
  destruct times as [|c rest]; [done|].
  by rewrite (outer_total utypes 0 c rest ∅ "irq").
Qed.

(** C2.  The last loop of [Once] divides the totals of a fixed list of
    eight keys.  The list reads ["interrupt.%d.total"] where the loop
    over the types writes ["irq.%d.total"], so the total of [irq] is
    left as the sum over the cores, never the mean, and the key
    ["interrupt.%d.total"] is stored although no type has that name.
    Indexing the map creates the key, so the snapshot also holds a
    total for each of the other seven types that is not sampled. *)
Theorem Once_totals_slip (times : list cpu.TimesStat) (now : Z)
    (stat stat' : CPUWatcher) :
  Once (inr times) now stat = Returned (None, stat') ->
  exists values,
    last (TimeSeries (UtilAvg stat')) = Some (mkTimeValue now values)
    /\ (NoDup (enabled (UtilTypes stat)) ->
        "irq" ∈ enabled (UtilTypes stat) -> times <> [] ->
        values !! "irq.%d.total" = Some (fsum (counter "irq" <$> times)))
    /\ values !! "interrupt.%d.total"
       = Some (0 / Num.float64_of_int (Z.of_nat (length times)))%float
    /\ (forall t,
          t ∈ ["system"; "user"; "nice"; "idle"; "iowait"; "softirq";
               "steal"]%string ->
          t ∉ enabled (UtilTypes stat) ->
          values !! totalKey t
          = Some (0 / Num.float64_of_int (Z.of_nat (length times)))%float).
Proof.
  intros Honce. exists (sampleValues times (UtilTypes stat)).
  split; [by apply Once_appends|]. split; [|split].
  - intros Hnodup Hirq Htimes.
    by apply (snapshot_irq_total times (UtilTypes stat)).
  - apply snapshot_divided_unsampled; [compute_done|].
    intros Hin. apply list_elem_of_fmap in Hin as (t & Heq & Ht).
    apply enabled_recognised, recognised_names in Ht.
    repeat (apply elem_of_cons in Ht as [->|Ht]; [discriminate Heq|]).
    by apply elem_of_nil in Ht.
  - intros t Ht Hout.
    assert (recognised t = true /\ totalKey t ∈ dividedKeys) as [Hrec Hdiv].
    { repeat (apply elem_of_cons in Ht as [->|Ht];
              [split; [reflexivity|compute_done]|]).
      by apply elem_of_nil in Ht. }
    apply snapshot_divided_unsampled; [done|].
    by apply totalKeys_enabled.
Qed.

(** Two cores with the [irq] counter at 6: the total is 12 where the
    mean is 6, and the totals of [interrupt] and [user] are stored. *)
Lemma Once_totals_slip_witness :
  exists values,
    last (TimeSeries (UtilAvg (withUtilAvg irqWatcher
            (mkTSA [mkTimeValue 0 (sampleValues [oneCore; oneCore] ["irq"])]
                   false [1]))))
    = Some (mkTimeValue 0 values)
    /\ values !! "irq.%d.total" = Some 12%float
    /\ coreMean "irq" [oneCore; oneCore] = 6%float
    /\ values !! "interrupt.%d.total" = Some 0%float
    /\ values !! "user.%d.total" = Some 0%float.
Proof.
  destruct (Once_totals_slip [oneCore; oneCore] 0 irqWatcher
              (withUtilAvg irqWatcher
                 (mkTSA [mkTimeValue 0 (sampleValues [oneCore; oneCore] ["irq"])]
                        false [1])))
    as (values & Hlast & Hirq & Hinterrupt & Hother).
  - reflexivity.
  - exists values. split; [exact Hlast|]. split; [|split; [reflexivity|split]].
    + transitivity (Some (fsum (counter "irq" <$> [oneCore; oneCore])));
        [|reflexivity].
      apply Hirq; [compute_done|left|discriminate].
    + transitivity
        (Some (0 / Num.float64_of_int (Z.of_nat (length [oneCore; oneCore])))%float);
        [exact Hinterrupt|reflexivity].
    + transitivity
        (Some (0 / Num.float64_of_int (Z.of_nat (length [oneCore; oneCore])))%float);
        [|reflexivity].
      apply (Hother "user"); [right; left|].
      vm_compute. intros Hin. apply list_elem_of_singleton in Hin.
      discriminate Hin.
Defined.

(** ** Metric names *)

Lemma hasChar_app c (a b : string) :
  hasChar c (a +:+ b) = hasChar c a || hasChar c b.
Proof.
  induction a as [|x a IH]; [done|]. sapp. simpl. rewrite IH.
  by rewrite orb_assoc.
Qed.

Lemma pretty_N_char_plain c n :
  (c = "." \/ c = "%")%char -> (c =? pretty_N_char n)%char = false.
Proof.
  intros [-> | ->]; unfold pretty_N_char; by repeat case_match.
Qed.

Lemma hasChar_pretty_N_go c x s :
  (c = "." \/ c = "%")%char -> hasChar c s = false ->
  hasChar c (pretty_N_go x s) = false.
Proof.
  intros Hc. revert s. induction (N.lt_wf_0 x) as [x _ IH]; intros s Hs.
  assert (x = 0 \/ 0 < x)%N as [->|Hpos] by lia.
  - by rewrite pretty_N_go_0.
  - rewrite pretty_N_go_step by done. apply IH.
    + by apply N.div_lt.
    + simpl. by rewrite pretty_N_char_plain, Hs.
Qed.

Lemma hasChar_pretty_N c (x : N) :
  (c = "." \/ c = "%")%char -> hasChar c (pretty x) = false.
Proof.
  intros Hc. unfold pretty, pretty_N. case_decide.
  - by destruct Hc as [-> | ->].
  - by apply hasChar_pretty_N_go.
Qed.

Lemma hasChar_pretty_Z c (z : Z) :
  (c = "." \/ c = "%")%char -> hasChar c (pretty z) = false.
Proof.
  intros Hc. destruct z as [|p|p].
  - by destruct Hc as [-> | ->].
  - by apply (hasChar_pretty_N c (N.pos p)).
  - change (hasChar c ("-" +:+ pretty (N.pos p)) = false).
    rewrite hasChar_app, (hasChar_pretty_N c (N.pos p)) by done.
    by destruct Hc as [-> | ->].
Qed.

Lemma Sprintf_plain (t rest : string) args :
  hasChar "%" t = false ->
  fmt.Sprintf (t +:+ rest) args = (t +:+ fmt.Sprintf rest args)%string.
Proof.
  induction t as [|c t IH]; intros Ht; [done|].
  cbn [hasChar] in Ht. apply orb_false_elim in Ht as [Hc Ht].
  sapp. cbn [fmt.Sprintf]. rewrite Ascii.eqb_sym, Hc. by rewrite IH.
Qed.

Lemma Sprintf_plain_end (s : string) :
  hasChar "%" s = false -> fmt.Sprintf s [] = s.
Proof.
  intros Hs. rewrite <- (string_app_nil_r s) at 1.
  rewrite Sprintf_plain by done. apply string_app_nil_r.
Qed.

Lemma utilName_windowKey (t s : string) d :
  hasChar "%" t = false -> hasChar "%" s = false ->
  utilName (t +:+ ".%d." +:+ s) d
  = ("util." +:+ t +:+ "." +:+ pretty d +:+ "." +:+ s)%string.
Proof.
  intros Ht Hs. unfold utilName. rewrite Sprintf_plain by done.
  assert (forall r, fmt.Sprintf (".%d." +:+ r) [fmt.AInt d]
                    = ("." +:+ pretty d +:+ "." +:+ fmt.Sprintf r [])%string)
    as -> by reflexivity.
  by rewrite Sprintf_plain_end.
Qed.

(** Distinct keys and windows give distinct metric names. *)
Lemma utilName_inj k k' d d' :
  windowKey k -> windowKey k' -> utilName k d = utilName k' d' ->
  k = k' /\ d = d'.
Proof.
  intros (t & s & -> & Ht & Hdot & Hs) (t' & s' & -> & Ht' & Hdot' & Hs').
  rewrite !utilName_windowKey by done. sapp. intros [= Heq].
  apply app_split_char in Heq as [-> Heq]; [|done..].
  apply app_split_char in Heq as [Hd ->];
    [|by apply hasChar_pretty_Z; left..].
  by apply (inj pretty) in Hd as ->.
Qed.

Lemma windowKey_total t :
  hasChar "%" t = false -> hasChar "." t = false -> windowKey (totalKey t).
Proof.
  intros Ht Hdot. exists t, "total"%string. by rewrite totalKey_eq.
Qed.

Lemma windowKey_cpu t i :
  hasChar "%" t = false -> hasChar "." t = false -> windowKey (cpuKey t i).
Proof.
  intros Ht Hdot. exists t, ("cpu" +:+ pretty i)%string.
  rewrite cpuKey_eq. repeat split; try done.
  rewrite hasChar_app. rewrite hasChar_pretty_Z by (by right). done.
Qed.

Lemma recognised_no_percent t : recognised t = true -> hasChar "%" t = false.
Proof.
  intros H. apply recognised_names in H.
  repeat (apply elem_of_cons in H as [->|H]; [done|]).
  by apply elem_of_nil in H.
Qed.

(** Every key of a snapshot taken by [Once] is a window key. *)
Lemma snapshot_windowKey times utypes k :
  is_Some (sampleValues times utypes !! k) -> windowKey k.
Proof.
  intros Hk. apply elem_of_dom in Hk.
  rewrite snapshot_dom, elem_of_list_to_set, !elem_of_app in Hk.
  destruct Hk as [Hk|[Hk|Hk]].
  - apply elem_of_cpuKeys in Hk as (t & j & Ht & _ & ->).
    apply enabled_recognised in Ht.
    by apply windowKey_cpu; [apply recognised_no_percent|apply recognised_plain].
  - case_decide; [by apply elem_of_nil in Hk|].
    apply list_elem_of_fmap in Hk as (t & -> & Ht).
    apply enabled_recognised in Ht.
    by apply windowKey_total; [apply recognised_no_percent|apply recognised_plain].
  - unfold dividedKeys in Hk.
    repeat (apply elem_of_cons in Hk as [->|Hk];
            [first [ by apply (windowKey_total "system")
                   | by apply (windowKey_total "user")
                   | by apply (windowKey_total "nice")
                   | by apply (windowKey_total "idle")
                   | by apply (windowKey_total "iowait")
                   | by apply (windowKey_total "interrupt")
                   | by apply (windowKey_total "softirq")
                   | by apply (windowKey_total "steal") ]|]).
    by apply elem_of_nil in Hk.
Qed.


(** ** Unavailable windows *)

Lemma windowResult_keys tsa lastTV d k v :
  windowResult tsa lastTV d !! k = Some v -> is_Some (Values lastTV !! k).
Proof.
  unfold windowResult.
  destruct (keyInt tsa d <? 0); [|destruct (TimeSeries tsa !! _)];
    rewrite ?map_lookup_imap, ?lookup_empty;
    by destruct (Values lastTV !! k).
Qed.

(** C3.  On a store that is not empty, for each window whose reference
    index is negative, [Percentage] returns no error and the sentinel
    -1 (not 0) for every key of the latest snapshot, and [Results]
    reports [nil] under the name of each such key and window. *)
Theorem unavailable_window_is_nil (avg : query load.AvgStat) (cs : CPUWatcher)
    (lastTV : TimeValue) (times : list cpu.TimesStat) (utypes : list string)
    (d : Z) :
  mu (UtilAvg cs) = false ->
  last (TimeSeries (UtilAvg cs)) = Some lastTV ->
  Values lastTV = sampleValues times utypes ->
  Forall validWindow (_DurationInMinutes (UtilAvg cs)) ->
  d ∈ _DurationInMinutes (UtilAvg cs) ->
  keyInt (UtilAvg cs) d < 0 ->
  exists sum m results err,
    Percentage (UtilAvg cs) = Returned (Some sum, None)
    /\ sum !! d = Some m
    /\ Results avg cs = Returned (results, err)
    /\ forall key, is_Some (Values lastTV !! key) ->
         m !! key = Some (-1)%float
         /\ (-1 =? 0)%float = false
         /\ results !! utilName key d = Some MNil.
Proof.
  intros Hmu Hlast Honce Hvalid Hd Hk.
  pose proof (Percentage_returns _ _ Hmu Hlast Hvalid) as Hperc.
  destruct (Percentage_window_unavailable _ _ Hmu Hlast Hvalid d Hd Hk)
    as (sum & Hperc' & Hsumd).
  rewrite Hperc in Hperc'. injection Hperc' as <-.
  destruct (Results_keeps_util avg cs _ _ Hperc) as (results & err & Hres & Hsub).
  cbn [default] in Hsub. unfold id in Hsub.
  eexists _, ((fun _ => (-1)%float) <$> Values lastTV), results, err.
  split; [exact Hperc|]. split; [done|]. split; [exact Hres|].
  intros key [v Hkey].
  assert (((fun _ => (-1)%float) <$> Values lastTV) !! key = Some (-1)%float)
    as Hm by (by rewrite lookup_fmap, Hkey).
  split; [done|]. split; [done|].
  eapply lookup_weaken; [|exact Hsub].
  change MNil with (measurement (-1)).
  eapply utilResults_lookup; [exact Hsumd|exact Hm|].
  intros d' m' k' v' Hd' Hk' Hname.
  rewrite foldl_insert_lookup in Hd'.
  case_decide; [|by rewrite lookup_empty in Hd'].
  injection Hd' as <-.
  apply utilName_inj in Hname as [-> ->].
  - rewrite foldl_insert_lookup, decide_True in Hsumd by done.
    injection Hsumd as Hsumd. rewrite Hsumd, Hm in Hk'. by injection Hk' as <-.
  - apply windowResult_keys in Hk'. rewrite Honce in Hk'.
    by eapply snapshot_windowKey.
  - eapply snapshot_windowKey. rewrite <- Honce. by eexists.
Qed.

Lemma unavailable_window_is_nil_witness :
  exists results err,
    Results (inl "boom")
      (withUtilAvg systemWatcher
         (mkTSA [mkTimeValue 0 (sampleValues [oneCore] ["system"])] false [1]))
    = Returned (results, err)
    /\ results !! "util.system.1.cpu0" = Some MNil
    /\ results !! "util.system.1.total" = Some MNil.
Proof.
  destruct (unavailable_window_is_nil (inl "boom")
              (withUtilAvg systemWatcher
                 (mkTSA [mkTimeValue 0 (sampleValues [oneCore] ["system"])]
                        false [1]))
              (mkTimeValue 0 (sampleValues [oneCore] ["system"]))
              [oneCore] ["system"] 1)
    as (sum & m & results & err & _ & _ & Hres & Hkeys).
  - reflexivity.
  - reflexivity.
  - reflexivity.
  - constructor; [unfold validWindow, maxWindow; lia|constructor].
  - left.
  - vm_compute. reflexivity.
  - exists results, err. split; [exact Hres|]. split.
    + apply (Hkeys "system.%d.cpu0"). by eexists.
    + apply (Hkeys "system.%d.total"). by eexists.
Defined.

(** ** The mutex *)

Lemma averageDivide_windows count durations sum d :
  is_Some (sum !! d) \/ d ∈ durations ->
  is_Some (foldl (averageDivide count) sum durations !! d).
Proof.
  revert sum. induction durations as [|x durations IH]; intros sum Hd.
  - destruct Hd as [Hd|Hd]; [done|by apply elem_of_nil in Hd].
  - cbn [foldl]. apply IH. unfold averageDivide.
    destruct (decide (d = x)) as [->|Hne].
    + left. by rewrite lookup_insert_eq.
    + rewrite lookup_insert_ne by done.
      destruct Hd as [Hd|Hd]; [by left|].
      apply elem_of_cons in Hd as [?|?]; [done|by right].
Qed.

(** C9.  While the mutex is held (by a sample in progress), [Once],
    [Percentage] and [Results] wait for it, but [Average] does not: it
    never takes the mutex and returns its averages, one entry for each
    window, from the series it reads all the same. *)
Theorem Average_ignores_mutex (now : Z) (cs : CPUWatcher) :
  mu (UtilAvg cs) = true ->
  (forall times now', Once times now' cs = Blocked)
  /\ Percentage (UtilAvg cs) = Blocked
  /\ (forall avg, Results avg cs = Blocked)
  /\ Average now (UtilAvg cs) = Average now (withMu (UtilAvg cs) false)
  /\ forall d, d ∈ _DurationInMinutes (UtilAvg cs) ->
               is_Some (Average now (UtilAvg cs) !! d).
Proof.
  intros Hmu. split; [intros; by apply Once_blocked|].
  assert (Percentage (UtilAvg cs) = Blocked) as Hperc
    by (unfold Percentage; by rewrite Hmu).
  split; [done|]. split; [intros; unfold Results; by rewrite Hperc|].
  split; [done|]. intros d Hd. unfold Average. cbv zeta.
  apply averageDivide_windows. by right.
Qed.

Lemma Average_ignores_mutex_witness :
  Percentage (UtilAvg heldWatcher) = Blocked
  /\ is_Some (Average 5000000000 (UtilAvg heldWatcher) !! 1).
Proof.
  destruct (Average_ignores_mutex 5000000000 heldWatcher)
    as (_ & Hperc & _ & _ & Havg).
  - reflexivity.
  - split; [exact Hperc|]. apply (Havg 1). left.
Defined.

(** The average that is read under the held mutex. *)
Example Average_under_held_mutex :
  Average 5000000000 (UtilAvg heldWatcher)
  = {[ 1 := {[ "user.%d.total" := 3%float ]} ]}.
Proof. vm_compute. reflexivity. Qed.

(** ** Further evaluations *)

(** The total of [irq] is the sum over the cores: the last loop of
    [Once] divides ["interrupt.%d.total"], a key that no type writes. *)
Example Once_irq_total_is_the_sum :
  sampleValues [oneCore; oneCore] ["irq"] !! totalKey "irq" = Some 12%float
  /\ coreMean "irq" [oneCore; oneCore] = 6%float
  /\ sampleValues [oneCore; oneCore] ["irq"] !! "interrupt.%d.total"
     = Some 0%float.
Proof. repeat split; vm_compute; reflexivity. Qed.

(** A type listed twice is added twice to its total. *)
Example Once_repeated_type_counts_twice :
  sampleValues [oneCore; oneCore] ["user"; "User"] !! totalKey "user"
  = Some 2%float
  /\ coreMean "user" [oneCore; oneCore] = 1%float.
Proof. repeat split; vm_compute; reflexivity. Qed.

(** A window of zero minutes ("avg0") makes [Percentage] index the
    series one past its end. *)
Example Percentage_zero_window_panics :
  Percentage (mkTSA (TimeSeries risingStore) false [0])
  = Panicked "index out of range".
Proof. vm_compute. reflexivity. Qed.

(** With no utilisation type enabled, the totals that [Once] always
    stores are still reported, as rates of 0. *)
Example Results_without_types :
  (fun stat => Results (inl "n/a") stat) <$> afterRun thirteenTicks noTypeWatcher
  = Some (Returned
      (list_to_map
         ((fun t => (("util." +:+ t +:+ ".1.total")%string, MFloat 0))
            <$> ["system"; "user"; "nice"; "idle"; "iowait"; "interrupt";
                 "softirq"; "steal"]%string),
       None)).
Proof. vm_compute. reflexivity. Qed.

(** * Further properties *)

(** ** The constructor *)

Lemma utilTypes_filter_acc GOOS types acc :
  foldl (fun acc t =>
           if existsb (fun metric => (metric =? t)%string)
                      (utilisationMetricsByOS GOOS)
           then acc ++ [t] else acc) acc types
  = acc ++ filter (fun t => t ∈ utilisationMetricsByOS GOOS) types.
Proof.
  revert acc. induction types as [|t types IH]; intros acc.
  - by rewrite app_nil_r.
  - cbn [foldl]. rewrite IH, filter_cons.
    destruct (existsb _ _) eqn:Hex.
    + apply existsb_exists in Hex as (metric & Hin & Heq).
      apply String.eqb_eq in Heq as ->. apply list_elem_of_In in Hin.
      rewrite decide_True by done. by rewrite <- app_assoc.
    + rewrite decide_False; [done|]. intros Hin.
      apply list_elem_of_In in Hin.
      assert (existsb (fun metric => (metric =? t)%string)
                      (utilisationMetricsByOS GOOS) = true) as Hex'
        by (apply existsb_exists; exists t; by rewrite String.eqb_refl).
      congruence.
Qed.

Lemma utilTypes_filter GOOS types :
  utilTypes GOOS types = filter (fun t => t ∈ utilisationMetricsByOS GOOS) types.
Proof. apply (utilTypes_filter_acc GOOS types []). Qed.

(** X1.  The watcher is built with exactly the requested utilisation
    types that the platform supports, in the order of the request;
    unsupported ones are dropped, and narrowing twice changes nothing. *)
Theorem Cagent_CPUWatcher_narrows_types (GOOS : string)
    (avg : query load.AvgStat) (ca : Cagent) :
  UtilTypes (Cagent_CPUWatcher GOOS avg ca)
  = filter (fun t => t ∈ utilisationMetricsByOS GOOS) (CPUUtilTypes ca)
  /\ (forall t, t ∈ UtilTypes (Cagent_CPUWatcher GOOS avg ca) <->
                t ∈ CPUUtilTypes ca /\ t ∈ utilisationMetricsByOS GOOS)
  /\ utilTypes GOOS (UtilTypes (Cagent_CPUWatcher GOOS avg ca))
     = UtilTypes (Cagent_CPUWatcher GOOS avg ca).
Proof.
  assert (UtilTypes (Cagent_CPUWatcher GOOS avg ca)
          = filter (fun t => t ∈ utilisationMetricsByOS GOOS) (CPUUtilTypes ca))
    as Heq by (unfold Cagent_CPUWatcher; cbn; apply utilTypes_filter).
  split; [done|]. split.
  - intros t. rewrite Heq, list_elem_of_filter. tauto.
  - rewrite Heq, utilTypes_filter. by apply list_filter_filter_l.
Qed.

Lemma utilDurations_omap_acc gather acc :
  foldl (fun durations d =>
           if strings.HasPrefix d "avg" then
             match strconv.Atoi (strings.from 3 d) with
             | (_, true) => durations
             | (v, false) => durations ++ [v]
             end
           else durations) acc gather
  = acc ++ omap windowOf gather.
Proof.
  revert acc. induction gather as [|d gather IH]; intros acc.
  - by rewrite app_nil_r.
  - cbn [foldl omap list_omap]. rewrite IH. unfold windowOf at 2.
    destruct (strings.HasPrefix d "avg"); [|done].
    destruct (strconv.Atoi (strings.from 3 d)) as [v []]; [done|].
    by rewrite <- app_assoc.
Qed.

Lemma utilDurations_omap gather : utilDurations gather = omap windowOf gather.
Proof. apply (utilDurations_omap_acc gather []). Qed.

(** X2.  The watcher starts with an empty store and a free mutex, and
    its windows are the numbers of the ["avg<N>"] entries of the
    configuration, sorted in ascending order (repetitions kept, entries
    that are not ["avg"] followed by an integer dropped). *)
Theorem Cagent_CPUWatcher_windows (GOOS : string) (avg : query load.AvgStat)
    (ca : Cagent) :
  let tsa := UtilAvg (Cagent_CPUWatcher GOOS avg ca) in
  TimeSeries tsa = []
  /\ mu tsa = false
  /\ Sorted Z.le (_DurationInMinutes tsa)
  /\ _DurationInMinutes tsa ≡ₚ omap windowOf (CPUUtilDataGather ca)
  /\ forall v, v ∈ _DurationInMinutes tsa <->
               exists d, d ∈ CPUUtilDataGather ca
                         /\ strings.HasPrefix d "avg" = true
                         /\ strconv.Atoi (strings.from 3 d) = (v, false).
Proof.
  cbv zeta. rewrite Cagent_CPUWatcher_UtilAvg.
  cbn [TimeSeries mu _DurationInMinutes]. rewrite utilDurations_omap.
  split; [done|]. split; [done|].
  split; [apply Sorted_merge_sort; apply _|].
  split; [apply merge_sort_Permutation|].
  intros v. unfold sort_Ints. rewrite merge_sort_Permutation.
  rewrite list_elem_of_omap. unfold windowOf. split.
  - intros (d & Hd & Hw). exists d. split; [done|].
    destruct (strings.HasPrefix d "avg"); [|done].
    destruct (strconv.Atoi (strings.from 3 d)) as [v' []]; by simplify_eq.
  - intros (d & Hd & Hpre & Hatoi). exists d. split; [done|].
    by rewrite Hpre, Hatoi.
Qed.

Lemma loadFlags_flags gather stat :
  LoadAvg1 (loadFlags gather stat)
  = LoadAvg1 stat || existsb (wantsLoad 1) gather
  /\ LoadAvg5 (loadFlags gather stat)
     = LoadAvg5 stat || existsb (wantsLoad 5) gather
  /\ LoadAvg15 (loadFlags gather stat)
     = LoadAvg15 stat || existsb (wantsLoad 15) gather.
Proof.
  unfold loadFlags. revert stat.
  induction gather as [|d gather IH]; intros stat.
  - cbn [foldl existsb]. by rewrite !orb_false_r.
  - cbn [foldl existsb]. destruct (IH (loadFlag stat d)) as (-> & -> & ->).
    unfold loadFlag, wantsLoad.
    destruct (strings.HasPrefix d "avg"); [|by rewrite !orb_assoc, !orb_false_r].
    cbn [andb].
    set (v := (strconv.Atoi (strings.from 3 d)).1).
    destruct (Z.eqb_spec v 1), (Z.eqb_spec v 5), (Z.eqb_spec v 15);
      try lia; cbn; by rewrite ?orb_true_r, ?orb_false_r.
Qed.

(** X3.  A load average is enabled exactly when the configuration asks
    for it with ["avg1"], ["avg5"] or ["avg15"] and [load.Avg()] is
    implemented on the platform; any other entry enables nothing. *)
Theorem Cagent_CPUWatcher_load_flags (GOOS : string)
    (avg : query load.AvgStat) (ca : Cagent) :
  let stat := Cagent_CPUWatcher GOOS avg ca in
  LoadAvg1 stat = loadImplemented avg && existsb (wantsLoad 1) (CPULoadDataGather ca)
  /\ LoadAvg5 stat
     = loadImplemented avg && existsb (wantsLoad 5) (CPULoadDataGather ca)
  /\ LoadAvg15 stat
     = loadImplemented avg && existsb (wantsLoad 15) (CPULoadDataGather ca).
Proof.
  cbv zeta. unfold Cagent_CPUWatcher, withUtilAvg.
  cbn [LoadAvg1 LoadAvg5 LoadAvg15].
  destruct (CPULoadDataGather ca) as [|g gather] eqn:Hg.
  - cbn. by rewrite !andb_false_r.
  - unfold loadImplemented.
    destruct avg as [err|loadAvg]; [destruct (err =? _)%string; [done|]|];
      cbn [negb andb];
      by destruct (loadFlags_flags (g :: gather)
                     (mkCPUWatcher false false false (mkTSA [] true []) []))
        as (-> & -> & ->).
Qed.

(** ** Appending *)

Lemma prune_prefix now durations d ts :
  last durations = Some d ->
  exists dropped kept,
    ts = dropped ++ kept
    /\ prune now durations ts = Returned kept
    /\ Forall (tooOld now d) dropped
    /\ (forall tv, head kept = Some tv -> ~ tooOld now d tv).
Proof.
  intros Hd. induction ts as [|tv rest IH].
  - exists [], []. by repeat split.
  - cbn [prune]. rewrite Hd.
    destruct (Z.ltb_spec (minutes d) (time.Sub now (Time tv))) as [Hold|Hyoung].
    + destruct IH as (dropped & kept & -> & Hprune & Hdropped & Hhead).
      exists (tv :: dropped), kept. split; [done|]. split; [done|].
      split; [by constructor|done].
    + exists [], (tv :: rest). split; [done|]. split; [done|].
      split; [constructor|]. intros tv' [= <-]. unfold tooOld. lia.
Qed.

(** X4.  [Add] removes the longest prefix of snapshots that are older
    than the largest window at the clock of the call, whatever lies
    behind the first younger one, and appends the new snapshot; it
    panics exactly when the store holds a snapshot and no window is
    configured. *)
Theorem Add_drops_old_prefix (now t : Z) (valuesMap : gmap string float)
    (tsa : TimeSeriesAverage) :
  (forall d, last (_DurationInMinutes tsa) = Some d ->
     exists dropped kept,
       TimeSeries tsa = dropped ++ kept
       /\ Add now t valuesMap tsa
          = Returned {| TimeSeries := kept ++ [mkTimeValue t valuesMap];
                        mu := mu tsa;
                        _DurationInMinutes := _DurationInMinutes tsa |}
       /\ Forall (tooOld now d) dropped
       /\ (forall tv, head kept = Some tv -> ~ tooOld now d tv))
  /\ (TimeSeries tsa = [] ->
      Add now t valuesMap tsa
      = Returned {| TimeSeries := [mkTimeValue t valuesMap];
                    mu := mu tsa;
                    _DurationInMinutes := _DurationInMinutes tsa |})
  /\ ((exists msg, Add now t valuesMap tsa = Panicked msg)
      <-> TimeSeries tsa <> [] /\ _DurationInMinutes tsa = []).
Proof.
  split; [|split].
  - intros d Hd.
    destruct (prune_prefix now _ d (TimeSeries tsa) Hd)
      as (dropped & kept & Hts & Hprune & Hdropped & Hhead).
    exists dropped, kept. unfold Add. rewrite Hprune. by repeat split.
  - intros Hnil. unfold Add. by rewrite Hnil.
  - unfold Add. destruct (last (_DurationInMinutes tsa)) as [d|] eqn:Hd.
    + destruct (prune_prefix now _ d (TimeSeries tsa) Hd)
        as (dropped & kept & Hts & -> & _). split.
      * by intros [msg ?].
      * intros [_ Hnone]. by rewrite Hnone in Hd.
    + apply last_None in Hd. destruct (TimeSeries tsa) as [|tv rest].
      * split; [by intros [msg ?]|by intros [? _]].
      * cbn [prune]. rewrite Hd. cbn. split; [done|]. intros _. by eexists.
Qed.

(** ** Successful samples *)

Lemma Once_returns times now stat d :
  mu (UtilAvg stat) = false ->
  last (_DurationInMinutes (UtilAvg stat)) = Some d ->
  exists kept,
    kept `suffix_of` TimeSeries (UtilAvg stat)
    /\ Once (inr times) now stat
       = Returned (None,
           withUtilAvg stat
             {| TimeSeries := kept ++ [sampleOf (UtilTypes stat) (times, now)];
                mu := false;
                _DurationInMinutes := _DurationInMinutes (UtilAvg stat) |}).
Proof.
  intros Hmu Hd.
  destruct (prune_prefix now _ d (TimeSeries (UtilAvg stat)) Hd)
    as (dropped & kept & Hts & Hprune & _).
  exists kept. split; [by exists dropped|].
  unfold Once, Add. rewrite Hmu.
  cbn [UtilAvg withUtilAvg withMu TimeSeries _DurationInMinutes UtilTypes].
  by rewrite Hprune.
Qed.

(** X5.  With a free mutex and at least one window, a sample whose
    query succeeds returns no error, leaves the mutex free and the
    configuration as it was, and ends the store with the new snapshot;
    from then on [Percentage] reports data and no error (for windows of
    positive length). *)
Theorem Once_success (times : list cpu.TimesStat) (now : Z)
    (stat : CPUWatcher) :
  mu (UtilAvg stat) = false ->
  _DurationInMinutes (UtilAvg stat) <> [] ->
  exists stat',
    Once (inr times) now stat = Returned (None, stat')
    /\ mu (UtilAvg stat') = false
    /\ sameConfig stat stat'
    /\ last (TimeSeries (UtilAvg stat'))
       = Some (sampleOf (UtilTypes stat) (times, now))
    /\ (length (TimeSeries (UtilAvg stat'))
        <= S (length (TimeSeries (UtilAvg stat))))%nat
    /\ (Forall validWindow (_DurationInMinutes (UtilAvg stat)) ->
        exists sum, Percentage (UtilAvg stat') = Returned (Some sum, None)).
Proof.
  intros Hmu Hne.
  destruct (last (_DurationInMinutes (UtilAvg stat))) as [d|] eqn:Hd;
    [|by apply last_None in Hd].
  destruct (Once_returns times now stat d Hmu Hd) as (kept & Hkept & Honce).
  eexists. split; [exact Honce|]. cbn [UtilAvg withUtilAvg mu TimeSeries].
  split; [done|]. split; [by repeat split|].
  split; [apply last_snoc|]. split.
  - rewrite length_app. cbn [length]. apply suffix_length in Hkept. lia.
  - intros Hvalid. eexists. eapply Percentage_returns; [done| |done].
    cbn [TimeSeries]. apply last_snoc.
Qed.

Lemma Once_success_witness :
  exists stat',
    Once (inr [oneCore]) 5000000000 oneSampleWatcher = Returned (None, stat')
    /\ mu (UtilAvg stat') = false
    /\ length (TimeSeries (UtilAvg stat')) = 2%nat.
Proof.
  destruct (Once_success [oneCore] 5000000000 oneSampleWatcher)
    as (stat' & Honce & Hmu & _).
  - reflexivity.
  - discriminate.
  - exists stat'. split; [exact Honce|]. split; [exact Hmu|].
    revert Honce. vm_compute. intros [= <-]. reflexivity.
Defined.

Lemma Run_returns samples stat :
  mu (UtilAvg stat) = false ->
  _DurationInMinutes (UtilAvg stat) <> [] ->
  exists stat',
    Run (goodTicks samples) stat = Returned stat'
    /\ mu (UtilAvg stat') = false
    /\ sameConfig stat stat'
    /\ TimeSeries (UtilAvg stat')
       `suffix_of` (TimeSeries (UtilAvg stat)
                    ++ (sampleOf (UtilTypes stat) <$> samples)).
Proof.
  revert stat. induction samples as [|[times now] samples IH]; intros stat Hmu Hne.
  - exists stat. split; [done|]. split; [done|]. split; [by repeat split|].
    cbn. by rewrite app_nil_r.
  - destruct (last (_DurationInMinutes (UtilAvg stat))) as [d|] eqn:Hd;
      [|by apply last_None in Hd].
    destruct (Once_returns times now stat d Hmu Hd) as (kept & Hkept & Honce).
    unfold goodTicks. rewrite fmap_cons. cbn [Run fst snd]. rewrite Honce.
    cbn [mbind outcome_bind snd]. fold (goodTicks samples).
    set (stat1 := withUtilAvg stat
           {| TimeSeries := kept ++ [sampleOf (UtilTypes stat) (times, now)];
              mu := false;
              _DurationInMinutes := _DurationInMinutes (UtilAvg stat) |}).
    destruct (IH stat1) as (stat' & Hrun & Hmu' & Hcfg & Hsuf); [done|done|].
    exists stat'. split; [exact Hrun|]. split; [done|]. split.
    + destruct Hcfg as (? & ? & ? & ? & ?). by repeat split.
    + etrans; [exact Hsuf|]. cbn [stat1 UtilAvg withUtilAvg TimeSeries UtilTypes].
      rewrite fmap_cons, <- app_assoc. cbn [app].
      destruct Hkept as [dropped ->]. rewrite <- app_assoc.
      by apply suffix_app_r.
Qed.

(** X6.  From a watcher with a free mutex and at least one window,
    [Run] gets through any number of intervals whose queries succeed:
    it leaves the mutex free and the configuration unchanged, and the
    store is a tail of the old store followed by the sampled snapshots
    in order, ending with the newest one. *)
Theorem Run_success (samples : list (list cpu.TimesStat * Z))
    (stat : CPUWatcher) :
  mu (UtilAvg stat) = false ->
  _DurationInMinutes (UtilAvg stat) <> [] ->
  exists stat',
    Run (goodTicks samples) stat = Returned stat'
    /\ mu (UtilAvg stat') = false
    /\ sameConfig stat stat'
    /\ TimeSeries (UtilAvg stat')
       `suffix_of` (TimeSeries (UtilAvg stat)
                    ++ (sampleOf (UtilTypes stat) <$> samples))
    /\ (length (TimeSeries (UtilAvg stat'))
        <= length (TimeSeries (UtilAvg stat)) + length samples)%nat
    /\ (forall samples' s, samples = samples' ++ [s] ->
          last (TimeSeries (UtilAvg stat')) = Some (sampleOf (UtilTypes stat) s)).
Proof.
  intros Hmu Hne.
  destruct (Run_returns samples stat Hmu Hne) as (stat' & Hrun & Hmu' & Hcfg & Hsuf).
  exists stat'. split; [done|]. split; [done|]. split; [done|]. split; [done|].
  split.
  - apply suffix_length in Hsuf. by rewrite length_app, length_fmap in Hsuf.
  - intros samples' s ->.
    destruct (Run_returns samples' stat Hmu Hne)
      as (stat1 & Hrun1 & Hmu1 & Hcfg1 & _).
    unfold goodTicks in Hrun. rewrite fmap_app in Hrun.
    assert (forall a b st, Run (a ++ b) st = st' ← Run a st; Run b st') as Happ.
    { induction a as [|[tm nw] a IHa]; intros b st; [done|].
      cbn [app Run]. destruct (Once tm nw st) as [r| |]; [|done..].
      cbn. apply IHa. }
    rewrite Happ in Hrun. fold (goodTicks samples') in Hrun.
    rewrite Hrun1 in Hrun. cbn [mbind outcome_bind fmap list_fmap Run fst snd] in Hrun.
    destruct (last (_DurationInMinutes (UtilAvg stat1))) as [d|] eqn:Hd.
    + destruct (Once_returns s.1 s.2 stat1 d Hmu1 Hd) as (kept & _ & Honce).
      rewrite Honce in Hrun. cbn in Hrun. injection Hrun as <-.
      cbn [UtilAvg withUtilAvg TimeSeries]. rewrite last_snoc.
      destruct Hcfg1 as (_ & _ & _ & <- & _). by destruct s.
    + apply last_None in Hd. destruct Hcfg1 as (_ & _ & _ & _ & Hdur).
      rewrite Hd in Hdur. done.
Qed.

Lemma Run_success_witness :
  exists stat',
    Run (goodTicks [([oneCore], 0); ([oneCore], 5000000000)]) systemWatcher
    = Returned stat'
    /\ mu (UtilAvg stat') = false
    /\ (length (TimeSeries (UtilAvg stat')) <= 0 + 2)%nat.
Proof.
  destruct (Run_success [([oneCore], 0); ([oneCore], 5000000000)] systemWatcher)
    as (stat' & Hrun & Hmu & _ & _ & Hlen & _).
  - reflexivity.
  - discriminate.
  - exists stat'. split; [exact Hrun|]. split; [exact Hmu|exact Hlen].
Defined.

(** ** The shape of the reports *)

Lemma windowResult_dom tsa lastTV d k :
  TimeSeries tsa <> [] -> validWindow d ->
  is_Some (windowResult tsa lastTV d !! k) <-> is_Some (Values lastTV !! k).
Proof.
  intros Hne Hd. unfold windowResult.
  destruct (keyInt tsa d <? 0) eqn:Hk.
  - rewrite map_lookup_imap. destruct (Values lastTV !! k); cbn;
      split; intros [? ?]; by eexists.
  - apply Z.ltb_ge in Hk.
    destruct (TimeSeries tsa !! Z.to_nat (keyInt tsa d)) as [ref|] eqn:Href.
    + rewrite map_lookup_imap. destruct (Values lastTV !! k); cbn;
        split; intros [? ?]; by eexists.
    + apply lookup_ge_None in Href. rewrite keyInt_valid in * by done.
      unfold validWindow in Hd. lia.
Qed.

(** X7.  On a store that is not empty, [Percentage] reports one entry
    for each configured window and no other, and under each window
    exactly the keys of the latest snapshot: keys that only older
    snapshots hold are not reported. *)
Theorem Percentage_shape (tsa : TimeSeriesAverage) (lastTV : TimeValue) :
  mu tsa = false ->
  last (TimeSeries tsa) = Some lastTV ->
  Forall validWindow (_DurationInMinutes tsa) ->
  exists sum,
    Percentage tsa = Returned (Some sum, None)
    /\ (forall d, is_Some (sum !! d) <-> d ∈ _DurationInMinutes tsa)
    /\ (forall d m, sum !! d = Some m ->
          forall k, is_Some (m !! k) <-> is_Some (Values lastTV !! k)).
Proof.
  intros Hmu Hlast Hvalid. eexists. split; [by apply Percentage_returns|].
  assert (TimeSeries tsa <> []) as Hne by (intros E; by rewrite E in Hlast).
  split.
  - intros d. rewrite foldl_insert_lookup. case_decide; [by split|].
    rewrite lookup_empty. split; [by intros [? ?]|done].
  - intros d m. rewrite foldl_insert_lookup. case_decide as Hd; [|done].
    intros [= <-] k. apply windowResult_dom; [done|].
    by eapply Forall_forall in Hvalid.
Qed.

Lemma Percentage_shape_witness :
  exists sum,
    Percentage risingStore = Returned (Some sum, None)
    /\ (forall d, is_Some (sum !! d) <-> d ∈ [1]).
Proof.
  destruct (Percentage_shape risingStore
              (mkTimeValue (60 * time.Second) {[ "user.%d.total" := 30%float ]}))
    as (sum & Hsum & Hdom & _).
  - reflexivity.
  - reflexivity.
  - constructor; [unfold validWindow, maxWindow; lia|constructor].
  - exists sum. split; [exact Hsum|exact Hdom].
Defined.







(** ** Regular sampling *)

Lemma regularStore_lookup t0 vals n durations (j : nat) :
  (j < n)%nat ->
  TimeSeries (regularStore t0 vals n durations) !! j
  = Some (mkTimeValue (t0 + Z.of_nat j * measureInterval) (vals j)).
Proof.
  intros Hj. unfold regularStore. cbn [TimeSeries].
  rewrite list_lookup_fmap, lookup_seq_lt by done. done.
Qed.

(** X9.  On a store sampled every five seconds, the reference snapshot
    of an available window of [d] minutes is the one taken [12 d - 1]
    samples before the latest: the rate is taken over [60 d - 5]
    seconds. *)
Theorem Percentage_regular_sampling (t0 : Z) (vals : nat -> gmap string float)
    (n : nat) (durations : list Z) (d : Z) (key : string) (lastVal : float) :
  Forall validWindow durations ->
  d ∈ durations ->
  12 * d <= Z.of_nat n ->
  vals (pred n) !! key = Some lastVal ->
  exists sum m,
    Percentage (regularStore t0 vals n durations) = Returned (Some sum, None)
    /\ sum !! d = Some m
    /\ m !! key
       = Some (round4 ((lastVal
                        - valueOf (vals (Z.to_nat (Z.of_nat n - 12 * d))) key)
                       / time.Seconds ((60 * d - 5) * time.Second)))%float.
Proof.
  intros Hvalid Hd Hn Hkey.
  assert (validWindow d) as Hdv by (by eapply Forall_forall in Hvalid).
  pose proof Hdv as [Hd0 Hdmax]. unfold maxWindow in Hdmax.
  set (tsa := regularStore t0 vals n durations).
  assert (length (TimeSeries tsa) = n) as Hlen
    by (subst tsa; unfold regularStore; cbn [TimeSeries];
        by rewrite length_fmap, length_seq).
  assert (last (TimeSeries tsa)
          = Some (mkTimeValue (t0 + Z.of_nat (pred n) * measureInterval)
                              (vals (pred n)))) as Hlast.
  { rewrite last_lookup, Hlen. apply regularStore_lookup. lia. }
  assert (keyInt tsa d = Z.of_nat n - 12 * d) as Hki
    by (by rewrite keyInt_valid, Hlen).
  destruct (Percentage_window_rate tsa _ eq_refl Hlast Hvalid d
              (mkTimeValue
                 (t0 + Z.of_nat (Z.to_nat (Z.of_nat n - 12 * d)) * measureInterval)
                 (vals (Z.to_nat (Z.of_nat n - 12 * d))))
              key lastVal Hd)
    as (sum & m & Hsum & Hsumd & Hm).
  - lia.
  - rewrite Hki. apply regularStore_lookup. lia.
  - done.
  - exists sum, m. split; [done|]. split; [done|]. rewrite Hm.
    unfold rateOf. cbn [Time Values]. do 4 f_equal.
    unfold time.Sub, measureInterval, time.Second, Num.minInt64, Num.maxInt64.
    lia.
Qed.

Lemma Percentage_regular_sampling_witness :
  exists sum m,
    Percentage (regularStore 0 (fun j => {[ "idle.%d.total"
                                             := Num.float64_of_int (Z.of_nat j) ]})
                             13 [1])
    = Returned (Some sum, None)
    /\ sum !! 1 = Some m
    /\ m !! "idle.%d.total" = Some (2000 / 10000)%float.
Proof.
  destruct (Percentage_regular_sampling 0
              (fun j => {[ "idle.%d.total" := Num.float64_of_int (Z.of_nat j) ]})
              13 [1] 1 "idle.%d.total" 12%float)
    as (sum & m & Hsum & Hd & Hkey).
  - constructor; [unfold validWindow, maxWindow; lia|constructor].
  - left.
  - lia.
  - reflexivity.
  - exists sum, m. split; [exact Hsum|]. split; [exact Hd|].
    rewrite Hkey. vm_compute. reflexivity.
Defined.

(** ** The types that are sampled *)

Lemma ToLower_recognised t : recognised t = true -> strings.ToLower t = t.
Proof.
  intros H. apply recognised_names in H.
  repeat (apply elem_of_cons in H as [->|H]; [reflexivity|]).
  by apply elem_of_nil in H.
Qed.

Lemma sampleType_lower i c values u :
  recognised (strings.ToLower u) = true ->
  sampleType i c values (strings.ToLower u) = sampleType i c values u.
Proof. intros Hrec. unfold sampleType. by rewrite (ToLower_recognised _ Hrec). Qed.

Lemma sampleTypes_enabled i c utypes values :
  foldl (sampleType i c) values (enabled utypes)
  = foldl (sampleType i c) values utypes.
Proof.
  revert values. induction utypes as [|u utypes IH]; intros values; [done|].
  rewrite enabled_cons. cbn [foldl].
  destruct (recognised (strings.ToLower u)) eqn:Hrec.
  - cbn [foldl]. by rewrite sampleType_lower, IH by done.
  - by rewrite IH, sampleType_skipped.
Qed.

Lemma sampleTimes_enabled i times utypes values :
  sampleTimes i times (enabled utypes) values = sampleTimes i times utypes values.
Proof.
  revert i values. induction times as [|c times IH]; intros i values; [done|].
  cbn [sampleTimes]. by rewrite IH, sampleTypes_enabled.
Qed.

Lemma enabled_idem utypes : enabled (enabled utypes) = enabled utypes.
Proof.
  induction utypes as [|u utypes IH]; [done|].
  rewrite enabled_cons. destruct (recognised (strings.ToLower u)) eqn:Hrec; [|done].
  by rewrite enabled_cons, (ToLower_recognised _ Hrec), Hrec, IH.
Qed.

(** X10.  [Once] samples a utilisation type whatever its letter case and
    ignores the types that its [switch] does not know: the snapshot is
    the one taken for the lower-cased known types alone, and these are
    the lower-cased entries of [UtilTypes] among the eight names of the
    [switch]. *)
Theorem Once_samples_known_types (times : list cpu.TimesStat)
    (utypes : list string) :
  sampleValues times utypes = sampleValues times (enabled utypes)
  /\ enabled (enabled utypes) = enabled utypes
  /\ forall t, t ∈ enabled utypes
               <-> (exists u, u ∈ utypes /\ t = strings.ToLower u)
                   /\ t ∈ ["system"; "user"; "nice"; "idle"; "iowait"; "irq";
                           "softirq"; "steal"]%string.
Proof.
  split; [|split].
  - unfold sampleValues. by rewrite sampleTimes_enabled.
  - apply enabled_idem.
  - intros t. unfold enabled. rewrite list_elem_of_filter, list_elem_of_fmap.
    split.
    + intros [Hrec (u & -> & Hu)]. split; [by exists u|].
      by apply recognised_names.
    + intros [(u & Hu & ->) Hnames]. split; [|by exists u].
      repeat (apply elem_of_cons in Hnames as [->|Hnames]; [done|]).
      by apply elem_of_nil in Hnames.
Qed.

(** X11.  When the operating system reports no core, a sample stores
    the eight divided totals and nothing else, each as the result of
    [0/0] (not a number), whatever types are enabled. *)
Theorem Once_without_cores (now : Z) (stat : CPUWatcher) :
  mu (UtilAvg stat) = false ->
  _DurationInMinutes (UtilAvg stat) <> [] ->
  exists stat',
    Once (inr []) now stat = Returned (None, stat')
    /\ last (TimeSeries (UtilAvg stat'))
       = Some (mkTimeValue now
                 (list_to_map ((fun k => (k, (0 / 0)%float)) <$> dividedKeys)))
    /\ (0 / 0)%float = nan.
Proof.
  intros Hmu Hne.
  destruct (last (_DurationInMinutes (UtilAvg stat))) as [d|] eqn:Hd;
    [|by apply last_None in Hd].
  destruct (Once_returns [] now stat d Hmu Hd) as (kept & _ & Honce).
  eexists. split; [exact Honce|]. split; [|reflexivity].
  cbn [UtilAvg withUtilAvg TimeSeries]. rewrite last_snoc.
  unfold sampleOf, sampleValues. cbn [fst snd sampleTimes length].
  vm_compute. reflexivity.
Qed.

Lemma Once_without_cores_witness :
  exists stat',
    Once (inr []) 0 systemWatcher = Returned (None, stat')
    /\ last (TimeSeries (UtilAvg stat'))
       = Some (mkTimeValue 0
                 (list_to_map ((fun k => (k, (0 / 0)%float)) <$> dividedKeys))).
Proof.
  destruct (Once_without_cores 0 systemWatcher) as (stat' & Honce & Hlast & _).
  - reflexivity.
  - discriminate.
  - exists stat'. split; [exact Honce|exact Hlast].
Defined.

(** ** Averages *)

Section AverageMaps.

Context {A : Type}.

Lemma lookup2_insert (s : gmap Z (gmap string A)) d key x d' key' :
  lookup2 (<[d := <[key := x]> (default ∅ (s !! d))]> s) d' key'
  = if decide (d' = d /\ key' = key) then Some x else lookup2 s d' key'.
Proof.
  unfold lookup2. destruct (decide (d' = d)) as [->|Hd].
  - rewrite lookup_insert_eq. cbn [default]. unfold id.
    destruct (decide (key' = key)) as [->|Hk].
    + rewrite lookup_insert_eq. by rewrite decide_True.
    + rewrite lookup_insert_ne by done. by rewrite decide_False by tauto.
  - rewrite lookup_insert_ne by done. by rewrite decide_False by tauto.
Qed.

End AverageMaps.

Lemma averageAdd_lookup d key val sc d' key' :
  lookup2 (averageAdd d key val sc).1 d' key'
  = (if decide (d' = d /\ key' = key)
     then Some (default 0 (lookup2 sc.1 d key) + val)%float
     else lookup2 sc.1 d' key')
  /\ lookup2 (averageAdd d key val sc).2 d' key'
     = (if decide (d' = d /\ key' = key)
        then Some (default 0 (lookup2 sc.2 d key) + 1)
        else lookup2 sc.2 d' key').
Proof.
  unfold averageAdd. cbn [fst snd]. by rewrite !lookup2_insert.
Qed.

(** All the keys of one snapshot, added to the window [d]. *)
Lemma averageAdd_fold d (m : gmap string float) sc d' key' :
  lookup2 (map_fold (averageAdd d) sc m).1 d' key'
  = (if decide (d' = d)
     then match m !! key' with
          | Some v => Some (default 0 (lookup2 sc.1 d key') + v)%float
          | None => lookup2 sc.1 d key'
          end
     else lookup2 sc.1 d' key')
  /\ lookup2 (map_fold (averageAdd d) sc m).2 d' key'
     = (if decide (d' = d)
        then match m !! key' with
             | Some v => Some (default 0 (lookup2 sc.2 d key') + 1)
             | None => lookup2 sc.2 d key'
             end
        else lookup2 sc.2 d' key').
Proof.
  revert d' key'.
  apply (map_fold_weak_ind (fun r m => forall d' key',
    lookup2 r.1 d' key'
    = (if decide (d' = d)
       then match m !! key' with
            | Some v => Some (default 0 (lookup2 sc.1 d key') + v)%float
            | None => lookup2 sc.1 d key'
            end
       else lookup2 sc.1 d' key')
    /\ lookup2 r.2 d' key'
       = (if decide (d' = d)
          then match m !! key' with
               | Some v => Some (default 0 (lookup2 sc.2 d key') + 1)
               | None => lookup2 sc.2 d key'
               end
          else lookup2 sc.2 d' key'))); clear m.
  - intros d' key'. rewrite lookup_empty. by case_decide; subst.
  - intros k v m r Hk IH d' key'.
    destruct (averageAdd_lookup d k v r d' key') as [-> ->].
    destruct (IH d k) as [IH1 IH2].
    rewrite decide_True, Hk in IH1 by done.
    rewrite decide_True, Hk in IH2 by done.
    rewrite IH1, IH2. destruct (IH d' key') as [-> ->].
    destruct (decide (d' = d)) as [->|Hd].
    + destruct (decide (key' = k)) as [->|Hne].
      * rewrite !decide_True by done. by rewrite lookup_insert_eq.
      * rewrite !decide_False by tauto. by rewrite lookup_insert_ne.
    + by rewrite !decide_False by tauto.
Qed.

Local Ltac window_cases :=
  repeat case_decide; try done; try tauto;
  try (exfalso;
       repeat match goal with
              | H : context [_ ∈ _ :: _] |- _ => rewrite elem_of_cons in H
              end;
       unfold inWindow in *; intuition lia).

Section AverageWindow.

Variables (now : Z) (d : Z) (key : string).

(** One snapshot, added to the windows it falls in. *)
Lemma averageSnapshot_lookup durations sc tv :
  NoDup durations ->
  lookup2 (averageSnapshot now durations sc tv).1 d key
  = (if decide (d ∈ durations /\ inWindow now d tv)
     then match Values tv !! key with
          | Some v => Some (default 0 (lookup2 sc.1 d key) + v)%float
          | None => lookup2 sc.1 d key
          end
     else lookup2 sc.1 d key)
  /\ lookup2 (averageSnapshot now durations sc tv).2 d key
     = (if decide (d ∈ durations /\ inWindow now d tv)
        then match Values tv !! key with
             | Some v => Some (default 0 (lookup2 sc.2 d key) + 1)
             | None => lookup2 sc.2 d key
             end
        else lookup2 sc.2 d key).
Proof.
  unfold averageSnapshot. revert sc.
  induction durations as [|x durations IH]; intros sc Hnodup.
  - cbn [foldl]. rewrite decide_False; [done|]. intros [Hin _].
    by apply elem_of_nil in Hin.
  - apply NoDup_cons in Hnodup as [Hx Hnodup]. cbn [foldl].
    destruct (IH (if time.Sub now (Time tv) <? minutes x
                  then map_fold (averageAdd x) sc (Values tv) else sc) Hnodup)
      as [-> ->].
    destruct (decide (d = x)) as [<-|Hne].
    + destruct (Z.ltb_spec (time.Sub now (Time tv)) (minutes d)) as [Hin|Hout].
      * destruct (averageAdd_fold d (Values tv) sc d key) as [-> ->].
        window_cases.
      * window_cases.
    + assert (lookup2 (if time.Sub now (Time tv) <? minutes x
                       then map_fold (averageAdd x) sc (Values tv) else sc).1 d key
              = lookup2 sc.1 d key
              /\ lookup2 (if time.Sub now (Time tv) <? minutes x
                          then map_fold (averageAdd x) sc (Values tv) else sc).2 d key
                 = lookup2 sc.2 d key) as [-> ->].
      { destruct (time.Sub now (Time tv) <? minutes x); [|done].
        destruct (averageAdd_fold x (Values tv) sc d key) as [-> ->].
        by rewrite !decide_False by done. }
      window_cases.
Qed.

Lemma averageSnapshots_lookup durations ts sc :
  NoDup durations -> d ∈ durations ->
  lookup2 (foldl (averageSnapshot now durations) sc ts).1 d key
  = foldl sumStep (lookup2 sc.1 d key) (windowValues now d key ts)
  /\ lookup2 (foldl (averageSnapshot now durations) sc ts).2 d key
     = foldl countStep (lookup2 sc.2 d key) (windowValues now d key ts).
Proof.
  intros Hnodup Hd. revert sc.
  induction ts as [|tv ts IH]; intros sc; [done|].
  cbn [foldl]. destruct (IH (averageSnapshot now durations sc tv)) as [-> ->].
  destruct (averageSnapshot_lookup durations sc tv Hnodup) as [-> ->].
  unfold windowValues. rewrite filter_cons.
  destruct (decide (inWindow now d tv)) as [Hin|Hout].
  - rewrite !decide_True by done. cbn [omap list_omap].
    by destruct (Values tv !! key).
  - by rewrite !decide_False by tauto.
Qed.

End AverageWindow.

Lemma sumStep_fsum vals :
  foldl sumStep None vals
  = match vals with [] => None | _ => Some (fsum vals) end.
Proof.
  destruct vals as [|v vals]; [done|]. unfold fsum. cbn [foldl].
  unfold sumStep at 2. cbn [default].
  generalize (0 + v)%float. induction vals as [|w vals IH]; intros acc; [done|].
  cbn [foldl]. unfold sumStep at 2. cbn [default]. apply IH.
Qed.

Lemma countStep_length vals :
  foldl countStep None vals
  = match vals with [] => None | _ => Some (Z.of_nat (length vals)) end.
Proof.
  destruct vals as [|v vals]; [done|]. cbn [foldl length].
  unfold countStep at 2. cbn [default].
  assert (forall acc, foldl countStep (Some acc) vals
                      = Some (acc + Z.of_nat (length vals))) as H.
  { induction vals as [|w vals IH]; intros acc.
    - cbn. f_equal. lia.
    - cbn [foldl length]. unfold countStep at 2. cbn [default]. unfold id.
      rewrite IH. f_equal. lia. }
  rewrite H. f_equal. lia.
Qed.

(** The maps that the first loop of [Average] makes. *)
Lemma made_lookup2 durations d key sc0 :
  lookup2 sc0.1 d key = None -> lookup2 sc0.2 d key = None ->
  lookup2 (foldl (fun (sc : gmap Z (gmap string float) * gmap Z (gmap string Z)) d
                  => (<[d := ∅]> sc.1, <[d := ∅]> sc.2))
                 sc0 durations).1 d key = None
  /\ lookup2 (foldl (fun (sc : gmap Z (gmap string float)
                               * gmap Z (gmap string Z)) d
                     => (<[d := ∅]> sc.1, <[d := ∅]> sc.2))
                    sc0 durations).2 d key = None.
Proof.
  revert sc0. induction durations as [|x durations IH]; intros sc0 H1 H2; [done|].
  cbn [foldl]. apply IH; cbn [fst snd]; unfold lookup2 in *.
  - destruct (decide (d = x)) as [->|Hne].
    + by rewrite lookup_insert_eq.
    + by rewrite lookup_insert_ne.
  - destruct (decide (d = x)) as [->|Hne].
    + by rewrite lookup_insert_eq.
    + by rewrite lookup_insert_ne.
Qed.

Lemma made_outside durations d sc0 :
  d ∉ durations ->
  (foldl (fun (sc : gmap Z (gmap string float) * gmap Z (gmap string Z)) d
          => (<[d := ∅]> sc.1, <[d := ∅]> sc.2))
         sc0 durations).1 !! d = sc0.1 !! d.
Proof.
  revert sc0. induction durations as [|x durations IH]; intros sc0 Hd; [done|].
  apply not_elem_of_cons in Hd as [Hne Hd]. cbn [foldl].
  rewrite IH by done. cbn [fst]. by rewrite lookup_insert_ne.
Qed.

(** The loops over the snapshots leave the other windows alone. *)
Lemma averageAdd_fold_outside d (m : gmap string float) sc d' :
  d' <> d -> (map_fold (averageAdd d) sc m).1 !! d' = sc.1 !! d'.
Proof.
  intros Hne.
  apply (map_fold_weak_ind (fun r _ => r.1 !! d' = sc.1 !! d')); [done|].
  intros k v m' r _ IH. unfold averageAdd. cbn [fst].
  by rewrite lookup_insert_ne.
Qed.

Lemma averageSnapshot_outside now durations sc tv d :
  d ∉ durations -> (averageSnapshot now durations sc tv).1 !! d = sc.1 !! d.
Proof.
  unfold averageSnapshot. revert sc.
  induction durations as [|x durations IH]; intros sc Hd; [done|].
  apply not_elem_of_cons in Hd as [Hne Hd]. cbn [foldl].
  rewrite IH by done.
  destruct (time.Sub now (Time tv) <? minutes x); [|done].
  by apply averageAdd_fold_outside.
Qed.

Lemma averageSnapshots_outside now durations ts sc d :
  d ∉ durations ->
  (foldl (averageSnapshot now durations) sc ts).1 !! d = sc.1 !! d.
Proof.
  intros Hd. revert sc. induction ts as [|tv ts IH]; intros sc; [done|].
  cbn [foldl]. rewrite IH. by apply averageSnapshot_outside.
Qed.

(** The last loop divides the sums of each window once. *)
Lemma averageDivide_outside count durations sum d :
  d ∉ durations -> foldl (averageDivide count) sum durations !! d = sum !! d.
Proof.
  revert sum. induction durations as [|x durations IH]; intros sum Hd; [done|].
  apply not_elem_of_cons in Hd as [Hne Hd]. cbn [foldl].
  rewrite IH by done. unfold averageDivide. by rewrite lookup_insert_ne.
Qed.

Lemma averageDivide_lookup count durations sum d key :
  NoDup durations -> d ∈ durations ->
  lookup2 (foldl (averageDivide count) sum durations) d key
  = (fun val => (val / Num.float64_of_int (default 0%Z (lookup2 count d key)))%float)
      <$> lookup2 sum d key.
Proof.
  revert sum. induction durations as [|x durations IH]; intros sum Hnodup Hd.
  - by apply elem_of_nil in Hd.
  - apply NoDup_cons in Hnodup as [Hx Hnodup]. cbn [foldl].
    destruct (decide (d = x)) as [->|Hne].
    + unfold lookup2 at 1. rewrite averageDivide_outside by done.
      unfold averageDivide. rewrite lookup_insert_eq. cbn [default]. unfold id.
      rewrite map_lookup_imap. unfold lookup2.
      destruct (sum !! x) as [m|]; cbn [from_option default id].
      * by destruct (m !! key).
      * by rewrite !lookup_empty.
    + apply elem_of_cons in Hd as [?|Hd]; [done|].
      rewrite IH by done. unfold lookup2, averageDivide.
      by rewrite lookup_insert_ne.
Qed.

(** X12.  [Average] returns one entry for each configured window and no
    other.  When the windows are pairwise distinct, the entry of the
    window [d] has a key exactly when some snapshot younger than [d]
    minutes has it, and holds the float64 sum of the values of these
    snapshots, added oldest first, divided by their number. *)
Theorem Average_mean (now : Z) (tsa : TimeSeriesAverage) :
  NoDup (_DurationInMinutes tsa) ->
  (forall d, is_Some (Average now tsa !! d) <-> d ∈ _DurationInMinutes tsa)
  /\ forall d key, d ∈ _DurationInMinutes tsa ->
       lookup2 (Average now tsa) d key
       = match windowValues now d key (TimeSeries tsa) with
         | [] => None
         | vals =>
             Some (fsum vals / Num.float64_of_int (Z.of_nat (length vals)))%float
         end.
Proof.
  intros Hnodup. unfold Average. cbv zeta. split.
  - intros d. split.
    + intros Hsome. destruct (decide (d ∈ _DurationInMinutes tsa)) as [|Hout]; [done|].
      rewrite averageDivide_outside, averageSnapshots_outside, made_outside
        in Hsome by done.
      cbn [fst] in Hsome. rewrite lookup_empty in Hsome. by destruct Hsome.
    + intros Hd. apply averageDivide_windows. by right.
  - intros d key Hd. rewrite averageDivide_lookup by done.
    destruct (averageSnapshots_lookup now d key (_DurationInMinutes tsa)
                (TimeSeries tsa)
                (foldl (fun sc d => (<[d := ∅]> sc.1, <[d := ∅]> sc.2))
                       ((∅, ∅) : gmap Z (gmap string float)
                                 * gmap Z (gmap string Z))
                       (_DurationInMinutes tsa)) Hnodup Hd) as [-> ->].
    destruct (made_lookup2 (_DurationInMinutes tsa) d key (∅, ∅)) as [-> ->];
      [done|done|].
    rewrite sumStep_fsum, countStep_length.
    by destruct (windowValues now d key (TimeSeries tsa)).
Qed.

Lemma Average_mean_witness :
  lookup2 (Average 5000000000 (UtilAvg heldWatcher)) 1 "user.%d.total"
  = Some (fsum [3%float] / Num.float64_of_int 1)%float.
Proof.
  destruct (Average_mean 5000000000 (UtilAvg heldWatcher)) as [_ H].
  - apply NoDup_cons. split; [apply not_elem_of_nil|apply NoDup_nil_2].
  - transitivity
      (match windowValues 5000000000 1 "user.%d.total"
               (TimeSeries (UtilAvg heldWatcher)) with
       | [] => None
       | vals =>
           Some (fsum vals / Num.float64_of_int (Z.of_nat (length vals)))%float
       end); [|vm_compute; reflexivity].
    apply H. left.
Defined.

(** * The parser of /proc/mdstat *)

(** ** The status expression *)

Lemma string_length_app (a b : string) :
  String.length (a +:+ b) = (String.length a + String.length b)%nat.
Proof. induction a as [|c a IH]; [done|]. sapp. cbn [String.length]. by rewrite IH. Qed.

Lemma string_app_inv_length (a a' b b' : string) :
  String.length a = String.length a' ->
  (a +:+ b = a' +:+ b')%string -> a = a' /\ b = b'.
Proof.
  revert a'. induction a as [|c a IH]; intros [|c' a'] Hlen Heq;
    try discriminate Hlen.
  - done.
  - sapp in Heq. injection Heq as -> Heq. injection Hlen as Hlen.
    destruct (IH a' Hlen Heq) as [-> ->]. done.
Qed.

Lemma statusRun_split s :
  s = ((raid.statusRun s).1 +:+ (raid.statusRun s).2)%string
  /\ allStatus (raid.statusRun s).1 = true.
Proof.
  induction s as [|c s [IH1 IH2]]; [done|]. cbn [raid.statusRun].
  destruct (raid.statusByte c) eqn:Hc.
  - destruct (raid.statusRun s) as [run tl]. cbn [fst snd] in *. sapp.
    split; [by rewrite <- IH1|]. cbn [allStatus]. by rewrite Hc, IH2.
  - done.
Qed.

Lemma statusRun_app group c post :
  allStatus group = true -> raid.statusByte c = false ->
  raid.statusRun (group +:+ String c post) = (group, String c post).
Proof.
  intros Hgroup Hc. induction group as [|x group IH].
  - sapp. cbn [raid.statusRun]. by rewrite Hc.
  - cbn [allStatus] in Hgroup. apply andb_true_iff in Hgroup as [Hx Hgroup].
    sapp. cbn [raid.statusRun]. by rewrite Hx, IH.
Qed.

(** A match at the head of the line. *)
Lemma matchHere_matchAt s group :
  raid.matchHere s = Some group <-> matchAt s "" group.
Proof.
  unfold matchAt. split.
  - destruct s as [|c rest]; [done|]. cbn [raid.matchHere].
    destruct (Ascii.eqb_spec c "[") as [->|]; [|done].
    destruct (statusRun_split rest) as [Hrest Hall].
    destruct (raid.statusRun rest) as [[|u run] [|c' post]]; try done.
    destruct (Ascii.eqb_spec c' "]") as [->|]; [|done].
    intros [= <-]. cbn [fst snd] in *. split; [done|]. split; [done|].
    exists post. sapp. by rewrite Hrest.
  - intros (Hne & Hall & post & ->). sapp. cbn [raid.matchHere].
    rewrite Ascii.eqb_refl, statusRun_app by done.
    destruct group as [|u run]; [done|]. by rewrite Ascii.eqb_refl.
Qed.

Lemma matchAt_cons c line pre group :
  matchAt (String c line) (String c pre) group <-> matchAt line pre group.
Proof.
  unfold matchAt. split; intros (Hne & Hall & post & Heq);
    (split; [done|split; [done|exists post]]).
  - sapp in Heq. by injection Heq.
  - sapp. by rewrite Heq.
Qed.

Lemma matchAt_head c line x pre group :
  matchAt (String c line) (String x pre) group -> x = c.
Proof. intros (_ & _ & post & Heq). sapp in Heq. by injection Heq. Qed.

Lemma matchAt_nil pre group : ~ matchAt "" pre group.
Proof.
  intros (_ & _ & post & Heq). apply (f_equal String.length) in Heq.
  rewrite !string_length_app in Heq. cbn in Heq. lia.
Qed.

(** The search returns the group of the leftmost match. *)
Lemma FindStringSubmatch_spec line :
  match raid.FindStringSubmatch line with
  | Some group =>
      exists pre, matchAt line pre group
        /\ forall pre' group', matchAt line pre' group' ->
             (String.length pre <= String.length pre')%nat
             /\ (String.length pre' = String.length pre -> group' = group)
  | None => forall pre group, ~ matchAt line pre group
  end.
Proof.
  induction line as [|c line IH].
  - cbn. intros pre group. apply matchAt_nil.
  - cbn [raid.FindStringSubmatch].
    destruct (raid.matchHere (String c line)) as [group|] eqn:Hhere.
    + exists "". split; [by apply matchHere_matchAt|].
      intros pre' group' Hm. split; [cbn; lia|].
      destruct pre' as [|x pre']; [|done]. intros _.
      apply (proj2 (matchHere_matchAt _ _)) in Hm. congruence.
    + destruct (raid.FindStringSubmatch line) as [group|].
      * destruct IH as (pre & Hm & Hleft). exists (String c pre).
        split; [by apply matchAt_cons|]. intros [|x pre'] group' Hm'.
        { apply (proj2 (matchHere_matchAt _ _)) in Hm'. congruence. }
        pose proof (matchAt_head _ _ _ _ _ Hm') as ->.
        apply (proj1 (matchAt_cons _ _ _ _)) in Hm'. destruct (Hleft _ _ Hm') as [Hle Heq].
        cbn [String.length]. split; [lia|]. intros Hlen. apply Heq. lia.
      * intros [|x pre] group Hm.
        { apply (proj2 (matchHere_matchAt _ _)) in Hm. congruence. }
        pose proof (matchAt_head _ _ _ _ _ Hm) as ->.
        apply (proj1 (matchAt_cons _ _ _ _)) in Hm. by apply (IH pre group).
Qed.

(** X13.  [raidStatusRegex.FindStringSubmatch] finds the group of the
    leftmost place where the line reads ["["], a non-empty run of [U]
    and [_], and ["]"]; it finds nothing exactly when the line has no
    such place. *)
Theorem FindStringSubmatch_leftmost (line : string) :
  (forall group,
     raid.FindStringSubmatch line = Some group <->
     exists pre, matchAt line pre group
       /\ forall pre' group', matchAt line pre' group' ->
            (String.length pre <= String.length pre')%nat)
  /\ (raid.FindStringSubmatch line = None <->
      forall pre group, ~ matchAt line pre group).
Proof.
  pose proof (FindStringSubmatch_spec line) as Hspec.
  destruct (raid.FindStringSubmatch line) as [found|].
  - destruct Hspec as (pre & Hm & Hleft). split.
    + intros group. split.
      * intros [= <-]. exists pre. split; [done|].
        intros pre' group' Hm'. by apply (Hleft pre' group').
      * intros (pre' & Hm' & Hleft'). f_equal. symmetry.
        apply (Hleft pre' group Hm').
        apply Nat.le_antisymm; [by apply (Hleft' pre found)|].
        by apply (Hleft pre' group).
    + split; [done|]. intros Hnone. by destruct (Hnone pre found).
  - split.
    + intros group. split; [done|]. intros (pre & Hm & _).
      by destruct (Hspec pre group).
    + done.
Qed.

(** ** The status line *)

Lemma statusDevs_positions i status inactive active :
  raid.statusDevs i status (inactive, active)
  = (inactive ++ positions "_" i status, active ++ positions "U" i status).
Proof.
  revert i inactive active.
  induction status as [|c status IH]; intros i inactive active.
  - cbn. by rewrite !app_nil_r.
  - cbn [raid.statusDevs positions fst snd].
    destruct (Ascii.eqb_spec c "_") as [->|Hne].
    + rewrite IH. cbn. by rewrite <- app_assoc.
    + destruct (Ascii.eqb_spec c "U") as [->|Hne'].
      * rewrite IH. by rewrite <- app_assoc.
      * by rewrite IH.
Qed.

Lemma byteAt_cons c s k :
  byteAt (String c s) k
  = if k =? 0 then Some c else if k <? 0 then None else byteAt s (k - 1).
Proof.
  unfold byteAt. destruct (Z.ltb_spec k 0) as [Hneg|Hpos].
  - by destruct (Z.eqb_spec k 0); [lia|].
  - destruct (Z.eqb_spec k 0) as [->|Hne]; [done|].
    destruct (Z.ltb_spec (k - 1) 0); [lia|].
    replace (Z.to_nat k) with (S (Z.to_nat (k - 1))) by lia. done.
Qed.

Lemma positions_elem c i s k :
  k ∈ positions c i s <-> i <= k /\ byteAt s (k - i) = Some c.
Proof.
  revert i. induction s as [|x s IH]; intros i.
  - cbn [positions]. split; [by intros ?%elem_of_nil|].
    intros [Hle Hget]. unfold byteAt in Hget.
    by destruct (k - i <? 0), (Z.to_nat (k - i)).
  - cbn [positions]. rewrite byteAt_cons.
    assert (k ∈ positions c (i + 1) s
            <-> i + 1 <= k /\ byteAt s (k - i - 1) = Some c) as IH'.
    { rewrite IH. by replace (k - (i + 1)) with (k - i - 1) by lia. }
    destruct (Z.eqb_spec (k - i) 0) as [Hk|Hk].
    + assert (k = i) as -> by lia.
      destruct (Ascii.eqb_spec x c) as [->|Hne].
      * split; [done|]. intros _. left.
      * rewrite IH'. split; [lia|]. intros [_ [=]]. done.
    + destruct (Z.ltb_spec (k - i) 0) as [Hneg|Hpos].
      * destruct (Ascii.eqb_spec x c) as [->|Hne].
        -- rewrite elem_of_cons, IH'. split; [lia|by intros [_ ?]].
        -- rewrite IH'. split; [lia|by intros [_ ?]].
      * destruct (Ascii.eqb_spec x c) as [->|Hne].
        -- rewrite elem_of_cons, IH'. split; [intros [?|[? ?]]|intros [? ?]].
           ++ lia.
           ++ split; [lia|done].
           ++ right. split; [lia|done].
        -- rewrite IH'. split; intros [? ?]; (split; [lia|done]).
Qed.

Lemma positions_sorted c i s : StronglySorted Z.lt (positions c i s).
Proof.
  revert i. induction s as [|x s IH]; intros i; cbn [positions].
  - constructor.
  - destruct (Ascii.eqb x c); [|apply IH].
    constructor; [apply IH|]. apply Forall_forall. intros k Hk.
    apply positions_elem in Hk. lia.
Qed.

Lemma positions_status i s :
  allStatus s = true ->
  positions "_" i s ++ positions "U" i s
  ≡ₚ seqZ i (Z.of_nat (String.length s)).
Proof.
  revert i. induction s as [|x s IH]; intros i Hall; [done|].
  cbn [allStatus] in Hall. apply andb_true_iff in Hall as [Hx Hall].
  cbn [String.length]. rewrite seqZ_cons by lia.
  replace (Z.pred (Z.of_nat (S (String.length s))))
    with (Z.of_nat (String.length s)) by lia.
  replace (Z.succ i) with (i + 1) by lia.
  rewrite <- (IH (i + 1) Hall). cbn [positions].
  unfold raid.statusByte in Hx. apply orb_true_iff in Hx as [Hx|Hx].
  - apply Ascii.eqb_eq in Hx as ->. cbn. by rewrite Permutation_middle.
  - apply Ascii.eqb_eq in Hx as ->. done.
Qed.

(** X14.  [parseStatusLine] reads the status of the line, the group
    that the expression finds: the inactive devices are the indices of
    its [_], the active ones the indices of its [U], both in
    increasing order, and together they are the indices [0 .. n-1] of
    the status.  A line without status gives no device. *)
Theorem parseStatusLine_partition (line : string) :
  match raid.FindStringSubmatch line with
  | None => raid.parseStatusLine line = ([], [])
  | Some status =>
      let '(inactive, active) := raid.parseStatusLine line in
      StronglySorted Z.lt inactive
      /\ StronglySorted Z.lt active
      /\ (forall i, i ∈ inactive <-> byteAt status i = Some "_"%char)
      /\ (forall i, i ∈ active <-> byteAt status i = Some "U"%char)
      /\ inactive ++ active ≡ₚ seqZ 0 (Z.of_nat (String.length status))
      /\ status <> ""
  end.
Proof.
  unfold raid.parseStatusLine.
  pose proof (FindStringSubmatch_spec line) as Hspec.
  destruct (raid.FindStringSubmatch line) as [status|]; [|done].
  destruct Hspec as (pre & (Hne & Hall & _) & _).
  rewrite statusDevs_positions. cbn [app].
  split; [apply positions_sorted|]. split; [apply positions_sorted|].
  assert (forall c i, i ∈ positions c 0 status <-> byteAt status i = Some c) as Hpos.
  { intros c i. rewrite positions_elem. replace (i - 0) with i by lia.
    split; [by intros [_ ?]|]. intros Hget. split; [|done].
    unfold byteAt in Hget. by destruct (Z.ltb_spec i 0). }
  split; [apply Hpos|]. split; [apply Hpos|].
  split; [by apply positions_status|done].
Qed.

(** ** Failed and missing devices *)

Lemma failed_panicked devices l msg :
  foldl (raid.failedStep devices) (Panicked msg) l = Panicked msg.
Proof. induction l as [|i l IH]; [done|]. cbn [foldl]. apply IH. Qed.

Lemma failed_returns devices l acc :
  Forall (fun i => 0 <= i) l ->
  foldl (raid.failedStep devices) (Returned acc) l
  = Returned (acc ++ omap (fun i => devices !! Z.to_nat i) l).
Proof.
  intros Hl. revert acc. induction Hl as [|i l Hi Hl IH]; intros acc.
  - cbn. by rewrite app_nil_r.
  - cbn [foldl omap list_omap]. unfold raid.failedStep at 2.
    cbn [mbind outcome_bind]. cbn beta in Hi.
    destruct (Z.ltb_spec i 0) as [?|_]; [lia|]. unfold raid.len.
    destruct (Z.ltb_spec i (Z.of_nat (length devices))) as [Hlt|Hge].
    + destruct (lookup_lt_is_Some_2 devices (Z.to_nat i)) as [device Hdev]; [lia|].
      rewrite Hdev, IH. by rewrite <- app_assoc.
    + rewrite (lookup_ge_None_2 devices (Z.to_nat i)) by lia. apply IH.
Qed.

Lemma failed_panics devices l acc :
  Exists (fun i => i < 0) l ->
  foldl (raid.failedStep devices) (Returned acc) l
  = Panicked "index out of range".
Proof.
  intros Hl. revert acc. induction l as [|i l IH]; intros acc.
  - by apply Exists_nil in Hl.
  - cbn [foldl]. unfold raid.failedStep at 2. cbn [mbind outcome_bind].
    unfold raid.len. destruct (Z.ltb_spec i 0) as [Hneg|Hpos].
    + destruct (Z.ltb_spec i (Z.of_nat (length devices))); [|lia].
      apply failed_panicked.
    + apply Exists_cons in Hl as [Hi|Hl]; [cbn beta in Hi; lia|].
      destruct (i <? Z.of_nat (length devices)); [|by apply IH].
      destruct (devices !! Z.to_nat i); [by apply IH|apply failed_panicked].
Qed.

Lemma missing_count devices l count :
  foldl (raid.missingStep devices) count l
  = count + raid.len (filter (fun i => raid.len devices <= i) l).
Proof.
  revert count. induction l as [|i l IH]; intros count.
  - rewrite filter_nil. unfold raid.len. cbn [foldl length]. lia.
  - cbn [foldl]. rewrite IH, filter_cons. unfold raid.missingStep.
    destruct (Z.leb_spec (raid.len devices) i) as [Hle|Hgt].
    + rewrite decide_True by done. unfold raid.len. cbn [length]. lia.
    + rewrite decide_False by lia. done.
Qed.

(** X15.  [GetFailedAndMissingPhysicalDevices] panics when a failed
    index is negative.  Otherwise it returns the devices at the failed
    indices that exist, in the order of [Failed], and the number of
    inactive indices at or beyond the number of devices. *)
Theorem GetFailedAndMissingPhysicalDevices_result (r : raid.raidInfo) :
  (Exists (fun i => i < 0) (raid.Failed r) ->
   raid.GetFailedAndMissingPhysicalDevices r = Panicked "index out of range")
  /\ (Forall (fun i => 0 <= i) (raid.Failed r) ->
      raid.GetFailedAndMissingPhysicalDevices r
      = Returned
          (omap (fun i => raid.Devices r !! Z.to_nat i) (raid.Failed r),
           raid.len (filter (fun i => raid.len (raid.Devices r) <= i)
                            (raid.Inactive r)))).
Proof.
  unfold raid.GetFailedAndMissingPhysicalDevices. split; intros Hfailed.
  - by rewrite failed_panics.
  - rewrite failed_returns by done. cbn [mbind outcome_bind app].
    by rewrite missing_count.
Qed.

(** ** The pieces of a line *)

Lemma Split_nonempty s sep : strings.Split s sep <> [].
Proof.
  destruct s as [|c s]; [done|]. cbn [strings.Split].
  destruct (Ascii.eqb c sep); [done|]. by destruct (strings.Split s sep).
Qed.

Lemma Split_no_sep s sep :
  Forall (fun piece => hasChar sep piece = false) (strings.Split s sep).
Proof.
  induction s as [|c s IH]; cbn [strings.Split].
  - by constructor.
  - destruct (Ascii.eqb_spec c sep) as [->|Hne].
    + by constructor.
    + destruct (strings.Split s sep) as [|piece pieces]; constructor.
      * cbn [hasChar]. destruct (Ascii.eqb_spec sep c); [by subst|done].
      * constructor.
      * apply Forall_cons in IH as [IH _]. cbn [hasChar].
        destruct (Ascii.eqb_spec sep c); [by subst|done].
      * by apply Forall_cons in IH as [_ IH].
Qed.

Lemma lookup_total_elem (l : list string) i :
  (i < length l)%nat -> l !!! i ∈ l.
Proof. intros Hi. by apply list_elem_of_lookup_total_2. Qed.

(** ** The first occurrence of a byte *)

Lemma Index_ge s c : -1 <= strings.Index s c.
Proof.
  induction s as [|a s IH]; cbn [strings.Index]; [done|].
  destruct (Ascii.eqb a c); [done|].
  destruct (Z.ltb_spec (strings.Index s c) 0); lia.
Qed.

Lemma Index_hasChar s c : strings.Index s c = -1 <-> hasChar c s = false.
Proof.
  induction s as [|a s IH]; cbn [strings.Index hasChar]; [done|].
  rewrite (Ascii.eqb_sym c a). destruct (Ascii.eqb a c); [done|].
  cbn [orb]. rewrite <- IH. pose proof (Index_ge s c).
  destruct (Z.ltb_spec (strings.Index s c) 0); lia.
Qed.

Lemma upto_Index s c :
  0 <= strings.Index s c ->
  hasChar c (strings.upto (Z.to_nat (strings.Index s c)) s) = false.
Proof.
  induction s as [|a s IH]; cbn [strings.Index]; [done|].
  rewrite (Ascii.eqb_sym a c). destruct (Ascii.eqb c a) eqn:Hca; [done|].
  destruct (Z.ltb_spec (strings.Index s c) 0) as [|Hpos]; [lia|]. intros _.
  replace (Z.to_nat (strings.Index s c + 1))
    with (S (Z.to_nat (strings.Index s c))) by lia.
  cbn [strings.upto hasChar]. rewrite Hca. by apply IH.
Qed.

Lemma deviceName_bracket device :
  strings.Index (deviceName device) "[" <= 0.
Proof.
  unfold deviceName.
  destruct (Z.ltb_spec 0 (strings.Index device "[")) as [Hpos|Hle]; [|done].
  rewrite (proj2 (Index_hasChar _ _)); [done|]. apply upto_Index. lia.
Qed.

(** ** The devices of a header *)

Lemma indicesOf_elem {A} (P : A -> bool) i l k :
  k ∈ indicesOf P i l
  <-> i <= k /\ exists x, l !! Z.to_nat (k - i) = Some x /\ P x = true.
Proof.
  revert i. induction l as [|y l IH]; intros i.
  - cbn [indicesOf]. split; [by intros ?%elem_of_nil|].
    by intros (_ & x & Hx & _).
  - assert (k ∈ indicesOf P (i + 1) l
            <-> i < k /\ exists x, (y :: l) !! Z.to_nat (k - i) = Some x
                                   /\ P x = true) as IH'.
    { rewrite IH. split.
      - intros (Hle & x & Hx & HP). split; [lia|]. exists x. split; [|done].
        replace (Z.to_nat (k - i)) with (S (Z.to_nat (k - (i + 1)))) by lia.
        done.
      - intros (Hle & x & Hx & HP). split; [lia|]. exists x. split; [|done].
        replace (Z.to_nat (k - i)) with (S (Z.to_nat (k - (i + 1)))) in Hx
          by lia.
        done. }
    cbn [indicesOf]. destruct (P y) eqn:Hy.
    + rewrite elem_of_cons, IH'. split.
      * intros [->|[Hlt Hx]]; [|split; [lia|done]].
        split; [lia|]. exists y. by rewrite Z.sub_diag.
      * intros (Hle & x & Hx & HP).
        destruct (decide (k = i)) as [->|Hne]; [by left|right].
        split; [lia|]. by exists x.
    + rewrite IH'. split.
      * intros [Hlt Hx]. split; [lia|done].
      * intros (Hle & x & Hx & HP).
        destruct (decide (k = i)) as [->|Hne].
        -- replace (Z.to_nat (i - i)) with 0%nat in Hx by lia.
           injection Hx as ->. congruence.
        -- split; [lia|]. by exists x.
Qed.

Lemma indicesOf_sorted {A} (P : A -> bool) i l :
  StronglySorted Z.lt (indicesOf P i l).
Proof.
  revert i. induction l as [|y l IH]; intros i; cbn [indicesOf].
  - constructor.
  - destruct (P y); [|apply IH].
    constructor; [apply IH|]. apply Forall_forall. intros k Hk.
    apply indicesOf_elem in Hk. lia.
Qed.

Lemma indicesOf_range {A} (P : A -> bool) l :
  Forall (fun k => 0 <= k < raid.len l) (indicesOf P 0 l).
Proof.
  apply Forall_forall. intros k (Hle & x & Hx & _)%indicesOf_elem.
  apply lookup_lt_Some in Hx. unfold raid.len. lia.
Qed.

(** The loop over the devices. *)
Lemma scanDevices_eq i devices failed :
  raid.scanDevices i devices failed
  = (deviceName <$> devices, failed ++ indicesOf markedFailed i devices).
Proof.
  revert i failed. induction devices as [|device devices IH]; intros i failed.
  - cbn. by rewrite app_nil_r.
  - cbn [raid.scanDevices indicesOf fmap list_fmap]. rewrite !IH.
    assert (deviceName device
            = if 0 <? strings.Index device "["
              then strings.upto (Z.to_nat (strings.Index device "[")) device
              else device) as -> by done.
    assert (markedFailed device
            = (0 <? strings.Index device "[")
              && strings.Contains device "(F)") as -> by done.
    destruct (0 <? strings.Index device "["); cbn [andb]; [|done].
    destruct (strings.Contains device "(F)"); [|done].
    by rewrite <- app_assoc.
Qed.

(** ** The lines of an array *)

Lemma parseLine_eq lines n line raids :
  raid.parseLine lines n line raids
  = if raid.skipped (strings.TrimSpace line) then inl raids
    else if (length lines <=? n + 3)%nat then inr raids
    else inl (raids ++ [arrayOf (raid.header (strings.TrimSpace line))
                          (raid.parseStatusLine (lines !!! (n + 1)%nat))
                          (strings.Contains
                             (lines !!! (if strings.Contains
                                               (lines !!! (n + 2)%nat) "bitmap"
                                         then (n + 2 + 1)%nat else (n + 2)%nat))
                             "recovery")]).
Proof.
  unfold raid.parseLine, arrayOf.
  destruct (raid.skipped (strings.TrimSpace line)); [done|].
  destruct (length lines <=? n + 3)%nat; [done|].
  by destruct (raid.parseStatusLine (lines !!! (n + 1)%nat)).
Qed.

(** What holds of every array that a header and its status line give
    holds of every array of the result. *)
Lemma parseLines_Forall (P : raid.raidInfo -> Prop) lines :
  (forall n line rebuilding,
     raid.skipped (strings.TrimSpace line) = false ->
     (n + 3 < length lines)%nat ->
     P (arrayOf (raid.header (strings.TrimSpace line))
                (raid.parseStatusLine (lines !!! (n + 1)%nat)) rebuilding)) ->
  forall rest n raids,
    Forall P raids -> Forall P (raid.parseLines lines n rest raids).
Proof.
  intros HP rest. induction rest as [|line rest IH]; intros n raids Hraids;
    [done|].
  cbn [raid.parseLines]. rewrite parseLine_eq.
  destruct (raid.skipped (strings.TrimSpace line)) eqn:Hskip; [by apply IH|].
  destruct (Nat.leb_spec (length lines) (n + 3)) as [|Hlen]; [done|].
  apply IH. apply Forall_app. split; [done|]. apply Forall_singleton.
  by apply HP.
Qed.

Lemma parseLines_length lines rest n raids :
  (length (raid.parseLines lines n rest raids)
   <= length raids + (length lines - 3 - n))%nat.
Proof.
  revert n raids. induction rest as [|line rest IH]; intros n raids.
  - cbn. lia.
  - cbn [raid.parseLines]. rewrite parseLine_eq.
    destruct (raid.skipped (strings.TrimSpace line)).
    + etrans; [apply IH|]. lia.
    + destruct (Nat.leb_spec (length lines) (n + 3)) as [|Hlen]; [lia|].
      etrans; [apply IH|]. rewrite length_app. cbn [length]. lia.
Qed.

(** The header of a line that is not skipped. *)
Lemma header_fields line :
  raid.skipped line = false ->
  let h := raid.header line in
  raid.Devices h <> []
  /\ Forall (fun device => strings.Index device "[" <= 0) (raid.Devices h)
  /\ StronglySorted Z.lt (raid.Failed h)
  /\ Forall (fun i => 0 <= i < raid.len (raid.Devices h)) (raid.Failed h)
  /\ hasChar " " (raid.Name h) = false
  /\ hasChar " " (raid.State h) = false
  /\ hasChar " " (raid.Type_ h) = false
  /\ (raid.RaidLevel h = -1
      \/ strconv.Atoi (strings.TrimPrefix (raid.Type_ h) "raid")
         = (raid.RaidLevel h, false)).
Proof.
  unfold raid.skipped, raid.header. intros Hskip.
  apply orb_false_iff in Hskip as [_ Hparts]. cbv zeta in Hparts.
  apply orb_false_iff in Hparts as [Hlen _]. apply Z.ltb_ge in Hlen.
  unfold raid.len in Hlen.
  pose proof (Split_no_sep line " ") as Hpieces.
  set (parts := strings.Split line " ") in *.
  rewrite scanDevices_eq. cbn [app]. cbv zeta.
  cbn [raid.Devices raid.Failed raid.Name raid.State raid.Type_ raid.RaidLevel].
  assert (forall k, (k < 5)%nat -> hasChar " " (parts !!! k) = false) as Hpart.
  { intros k Hk. apply (proj1 (Forall_forall _ _) Hpieces).
    apply lookup_total_elem. lia. }
  split.
  { intros Hnil. apply (f_equal length) in Hnil.
    rewrite length_fmap, length_drop in Hnil. cbn in Hnil. lia. }
  split.
  { apply Forall_fmap, Forall_forall. intros device _. cbn.
    apply deviceName_bracket. }
  split; [apply indicesOf_sorted|].
  split.
  { eapply Forall_impl; [apply indicesOf_range|]. intros i Hi. cbn beta in *.
    unfold raid.len in *. by rewrite length_fmap. }
  split; [apply Hpart; lia|]. split; [apply Hpart; lia|].
  split; [apply Hpart; lia|].
  destruct (strconv.Atoi (strings.TrimPrefix (parts !!! 3%nat) "raid"))
    as [level [|]]; [by left|by right].
Qed.

(** X16.  Every array that [parseMdstat] returns has at least one
    device; its device names have no bracket after their first byte;
    its failed indices increase and are indices of its devices; its
    name, state and type have no blank; its level is -1 or the number
    that follows ["raid"] in its type; its inactive and active devices
    are those of the status of one of the lines.  Each array takes a
    header that three lines follow: there are at most [len(lines) - 3]
    arrays. *)
Theorem parseMdstat_arrays (data : string) :
  Forall (fun r =>
            raid.Devices r <> []
            /\ Forall (fun device => strings.Index device "[" <= 0)
                      (raid.Devices r)
            /\ StronglySorted Z.lt (raid.Failed r)
            /\ Forall (fun i => 0 <= i < raid.len (raid.Devices r))
                      (raid.Failed r)
            /\ hasChar " " (raid.Name r) = false
            /\ hasChar " " (raid.State r) = false
            /\ hasChar " " (raid.Type_ r) = false
            /\ (raid.RaidLevel r = -1
                \/ strconv.Atoi (strings.TrimPrefix (raid.Type_ r) "raid")
                   = (raid.RaidLevel r, false))
            /\ exists line, line ∈ strings.Split data LF
                 /\ raid.parseStatusLine line
                    = (raid.Inactive r, raid.Active r))
         (raid.parseMdstat data)
  /\ (length (raid.parseMdstat data)
      <= length (strings.Split data LF) - 3)%nat.
Proof.
  unfold raid.parseMdstat. cbv zeta. fold LF. split.
  - apply parseLines_Forall; [|constructor].
    intros n line rebuilding Hskip Hlen.
    destruct (header_fields _ Hskip)
      as (Hdev & Hname & Hsorted & Hrange & HN & HS & HT & Hlevel).
    unfold arrayOf.
    cbn [raid.Devices raid.Failed raid.Name raid.State raid.Type_
         raid.RaidLevel raid.Inactive raid.Active].
    do 8 (split; [assumption|]).
    exists (strings.Split data LF !!! (n + 1)%nat). split.
    + apply lookup_total_elem. lia.
    + by destruct (raid.parseStatusLine _).
  - etrans; [apply parseLines_length|]. cbn [length]. lia.
Qed.

(** X17.  For every array that [parseMdstat] returns,
    [GetFailedAndMissingPhysicalDevices] returns, without a panic, one
    device of the array for each failed index, and the number of the
    inactive indices that are no index of a device. *)
Theorem parseMdstat_failed_devices (data : string) :
  Forall (fun r =>
            exists failedDevices,
              raid.GetFailedAndMissingPhysicalDevices r
              = Returned
                  (failedDevices,
                   raid.len (filter (fun i => raid.len (raid.Devices r) <= i)
                                    (raid.Inactive r)))
              /\ length failedDevices = length (raid.Failed r)
              /\ forall k i, raid.Failed r !! k = Some i ->
                   failedDevices !! k = raid.Devices r !! Z.to_nat i)
         (raid.parseMdstat data).
Proof.
  unfold raid.parseMdstat. cbv zeta.
  apply parseLines_Forall; [|constructor].
  intros n line rebuilding Hskip Hlen.
  destruct (header_fields _ Hskip) as (_ & _ & _ & Hrange & _).
  set (r := arrayOf _ _ _).
  change (raid.Failed (raid.header (strings.TrimSpace line)))
    with (raid.Failed r) in Hrange.
  change (raid.Devices (raid.header (strings.TrimSpace line)))
    with (raid.Devices r) in Hrange.
  clearbody r. unfold raid.GetFailedAndMissingPhysicalDevices.
  rewrite failed_returns, missing_count
    by (eapply Forall_impl; [exact Hrange|]; cbn; lia).
  cbn [mbind outcome_bind app]. eexists. split; [reflexivity|].
  assert (forall failed,
            Forall (fun i => 0 <= i < raid.len (raid.Devices r)) failed ->
            length (omap (fun i => raid.Devices r !! Z.to_nat i) failed)
            = length failed
            /\ forall k i, failed !! k = Some i ->
                 omap (fun i => raid.Devices r !! Z.to_nat i) failed !! k
                 = raid.Devices r !! Z.to_nat i) as Hfailed.
  { clear Hrange. intros failed Hrange.
    induction Hrange as [|i failed Hi Hrange [IHlen IH]]; [done|].
    cbn [omap list_omap].
    destruct (lookup_lt_is_Some_2 (raid.Devices r) (Z.to_nat i))
      as [device Hdev]; [unfold raid.len in Hi; lia|].
    rewrite Hdev. cbn [length]. split; [by rewrite IHlen|].
    intros [|k] j Hk.
    - injection Hk as <-. by rewrite Hdev.
    - by apply IH. }
  by apply Hfailed.
Qed.

(** ** Splitting what was joined *)

Lemma Join_cons e rest sep :
  rest <> [] ->
  strings.Join (e :: rest) sep = (e +:+ sep +:+ strings.Join rest sep)%string.
Proof. by destruct rest. Qed.

Lemma Split_plain s sep :
  hasChar sep s = false -> strings.Split s sep = [s].
Proof.
  induction s as [|c s IH]; [done|]. cbn [hasChar strings.Split].
  intros [Hc Hs]%orb_false_iff. rewrite Ascii.eqb_sym, Hc. by rewrite IH.
Qed.

Lemma Split_app s sep rest :
  hasChar sep s = false ->
  strings.Split (s +:+ String sep rest) sep = s :: strings.Split rest sep.
Proof.
  induction s as [|c s IH].
  - intros _. sapp. cbn [strings.Split]. by rewrite Ascii.eqb_refl.
  - cbn [hasChar]. intros [Hc Hs]%orb_false_iff. sapp.
    cbn [strings.Split]. rewrite Ascii.eqb_sym, Hc. by rewrite IH.
Qed.

Lemma Split_Join ls sep :
  ls <> [] -> Forall (fun l => hasChar sep l = false) ls ->
  strings.Split (strings.Join ls (String sep "")) sep = ls.
Proof.
  intros Hne Hls. induction Hls as [|l ls Hl Hls IH]; [done|].
  destruct ls as [|l' ls].
  - by apply Split_plain.
  - rewrite Join_cons by done. sapp. rewrite Split_app by done.
    by rewrite IH.
Qed.

Lemma hasChar_Join c ls sep :
  Forall (fun l => hasChar c l = false) ls -> hasChar c sep = false ->
  hasChar c (strings.Join ls sep) = false.
Proof.
  intros Hls Hsep. induction Hls as [|l ls Hl Hls IH]; [done|].
  destruct ls as [|l' ls]; [done|].
  rewrite Join_cons, !hasChar_app by done. by rewrite Hl, Hsep, IH.
Qed.

(** ** Words *)

Lemma noSpace_hasChar c s :
  strings.asciiSpace c = true -> noSpace s = true -> hasChar c s = false.
Proof.
  intros Hc. induction s as [|x s IH]; [done|]. cbn [noSpace hasChar].
  intros [Hx Hs]%andb_true_iff. rewrite IH by done.
  destruct (Ascii.eqb_spec c x) as [->|]; [|done].
  unfold visible in Hx. rewrite Hc in Hx. by destruct (_ <? _)%nat.
Qed.

Lemma word_no_blank w : word w -> hasChar " " w = false.
Proof. intros [_ Hw]. by apply noSpace_hasChar. Qed.

Lemma word_no_LF w : word w -> hasChar LF w = false.
Proof. intros [_ Hw]. by apply noSpace_hasChar. Qed.

(** A visible byte starts no white space. *)
Lemma visible_no_space a :
  visible a = true ->
  strings.asciiSpace a = false
  /\ (forall b, strings.space2 a b = false)
  /\ (forall b c, strings.space3 a b c = false).
Proof.
  unfold visible, strings.space2, strings.space3.
  intros [Ha Hs]%andb_true_iff. apply Nat.ltb_lt in Ha.
  apply negb_true_iff in Hs. split; [done|]. cbv zeta. split; intros.
  - destruct (Nat.eqb_spec (nat_of_ascii a) 194); [lia|done].
  - destruct (Nat.eqb_spec (nat_of_ascii a) 225); [lia|].
    destruct (Nat.eqb_spec (nat_of_ascii a) 226); [lia|].
    destruct (Nat.eqb_spec (nat_of_ascii a) 227); [lia|done].
Qed.

(** Only the first byte of a white space of several bytes starts
    one. *)
Lemma space_bytes a b c :
  (strings.space2 a b = true -> visible a = false /\ visible b = false)
  /\ (strings.space3 a b c = true ->
      visible a = false /\ visible b = false /\ visible c = false).
Proof.
  assert (forall x, (128 <= nat_of_ascii x)%nat -> visible x = false) as Hhigh.
  { intros x Hx. unfold visible.
    destruct (Nat.ltb_spec (nat_of_ascii x) 128); [lia|done]. }
  unfold strings.space2, strings.space3. cbv zeta. split.
  - intros [Ha Hb]%andb_true_iff. apply Nat.eqb_eq in Ha.
    apply orb_true_iff in Hb as [Hb|Hb]; apply Nat.eqb_eq in Hb;
      split; apply Hhigh; lia.
  - intros H.
    assert ((128 <= nat_of_ascii a)%nat /\ (128 <= nat_of_ascii b)%nat
            /\ (128 <= nat_of_ascii c)%nat) as (Ha & Hb & Hc).
    { repeat match type of H with
             | (_ || _) = true => apply orb_true_iff in H as [H|H]
             end;
        repeat match goal with
               | H : (_ && _) = true |- _ =>
                   let H1 := fresh in let H2 := fresh in
                   apply andb_true_iff in H as [H1 H2]
               | H : (_ || _) = true |- _ => apply orb_true_iff in H as [H|H]
               | H : (_ =? _)%nat = true |- _ => apply Nat.eqb_eq in H
               | H : (_ <=? _)%nat = true |- _ => apply Nat.leb_le in H
               end; lia. }
    by rewrite !Hhigh.
Qed.

Lemma allSpace_cons a rest :
  strings.allSpace (String a rest)
  = if strings.asciiSpace a then strings.allSpace rest
    else match rest with
         | String b rest' =>
             if strings.space2 a b then strings.allSpace rest'
             else match rest' with
                  | String c rest'' =>
                      if strings.space3 a b c then strings.allSpace rest''
                      else false
                  | EmptyString => false
                  end
         | EmptyString => false
         end.
Proof. reflexivity. Qed.

Lemma lastVisible_cons a b rest :
  lastVisible (String a (String b rest)) = lastVisible (String b rest).
Proof. reflexivity. Qed.

(** A string of white space holds no visible byte. *)
Lemma allSpace_lastVisible s :
  strings.allSpace s = true -> lastVisible s = false.
Proof.
  assert (forall n s, (String.length s <= n)%nat ->
            strings.allSpace s = true -> lastVisible s = false) as H;
    [|by apply (H (String.length s))].
  clear s. intros n. induction n as [|n IH]; intros s Hlen.
  { destruct s; [done|cbn in Hlen; lia]. }
  destruct s as [|a rest]; [done|]. rewrite allSpace_cons.
  cbn [String.length] in Hlen.
  assert (visible a = true -> strings.asciiSpace a = false) as Hvis.
  { intros Ha. by apply visible_no_space. }
  destruct (strings.asciiSpace a) eqn:Ha.
  { intros Hrest. destruct rest as [|b rest].
    - cbn. destruct (visible a); [by discriminate Hvis|done].
    - rewrite lastVisible_cons. apply IH; [lia|done]. }
  destruct rest as [|b rest]; [done|]. rewrite lastVisible_cons.
  cbn [String.length] in Hlen.
  destruct (strings.space2 a b) eqn:Hab.
  { intros Hrest. apply (space_bytes a b b) in Hab as [_ Hb].
    destruct rest as [|c rest]; [exact Hb|].
    rewrite lastVisible_cons. apply IH; [lia|done]. }
  destruct rest as [|c rest]; [done|]. rewrite lastVisible_cons.
  cbn [String.length] in Hlen.
  destruct (strings.space3 a b c) eqn:Habc; [|done]. intros Hrest.
  apply (space_bytes a b c) in Habc as (_ & _ & Hc).
  destruct rest as [|x rest]; [exact Hc|].
  rewrite lastVisible_cons. apply IH; [lia|done].
Qed.

Lemma TrimLeft_word w rest :
  word w -> strings.TrimLeft (w +:+ rest) = (w +:+ rest)%string.
Proof.
  intros [Hne Hw]. destruct w as [|c w]; [done|]. cbn [noSpace] in Hw.
  apply andb_true_iff in Hw as [Hc _].
  destruct (visible_no_space c Hc) as (H1 & H2 & H3).
  sapp. cbn [strings.TrimLeft]. rewrite H1.
  destruct (w +:+ rest)%string as [|b [|x r]]; [done| |]; rewrite H2; [done|].
  by rewrite H3.
Qed.

Lemma TrimRight_lastVisible s :
  lastVisible s = true -> strings.TrimRight s = s.
Proof.
  induction s as [|a s IH]; [done|]. intros Hlast.
  cbn [strings.TrimRight].
  destruct (strings.allSpace (String a s)) eqn:Hall.
  { apply allSpace_lastVisible in Hall. congruence. }
  destruct s as [|b s]; [done|]. by rewrite IH.
Qed.

Lemma lastVisible_app a b :
  b <> "" -> lastVisible (a +:+ b) = lastVisible b.
Proof.
  intros Hb. induction a as [|c a IH]; [done|]. sapp.
  destruct (a +:+ b)%string as [|x r] eqn:Hab; [|exact IH].
  destruct a; [|done]. by sapp in Hab.
Qed.

Lemma lastVisible_word w : word w -> lastVisible w = true.
Proof.
  intros [Hne Hw]. induction w as [|c w IH]; [done|]. cbn [noSpace] in Hw.
  apply andb_true_iff in Hw as [Hc Hw]. destruct w as [|c' w]; [done|].
  by apply IH.
Qed.

Lemma Join_words_nonempty ls :
  ls <> [] -> Forall word ls -> strings.Join ls " " <> "".
Proof.
  intros Hne Hls. destruct Hls as [|w ls [Hw _] Hls]; [done|].
  destruct ls as [|w' ls]; [done|]. rewrite Join_cons by done.
  by destruct w.
Qed.

Lemma lastVisible_words ls :
  ls <> [] -> Forall word ls -> lastVisible (strings.Join ls " ") = true.
Proof.
  intros Hne Hls. induction Hls as [|w ls Hw Hls IH]; [done|].
  destruct ls as [|w' ls].
  - by apply lastVisible_word.
  - rewrite Join_cons by done. rewrite <- string_app_assoc.
    rewrite lastVisible_app by (by apply Join_words_nonempty). by apply IH.
Qed.

Lemma TrimSpace_words ls :
  ls <> [] -> Forall word ls ->
  strings.TrimSpace (strings.Join ls " ") = strings.Join ls " ".
Proof.
  intros Hne Hls. unfold strings.TrimSpace.
  assert (strings.TrimLeft (strings.Join ls " ") = strings.Join ls " ") as ->.
  { destruct Hls as [|w ls Hw Hls]; [done|]. destruct ls as [|w' ls].
    - rewrite <- (string_app_nil_r w). by apply TrimLeft_word.
    - rewrite Join_cons by done. by apply TrimLeft_word. }
  by apply TrimRight_lastVisible, lastVisible_words.
Qed.

Lemma prefix_before c pre a rest :
  hasChar c pre = false ->
  String.prefix pre (a +:+ String c rest) = String.prefix pre a.
Proof.
  revert pre. induction a as [|x a IH]; intros [|p pre] Hpre; try done.
  - sapp. cbn [hasChar] in Hpre. apply orb_false_iff in Hpre as [Hp _].
    cbn [String.prefix]. destruct (ascii_dec p c) as [->|]; [|done].
    by rewrite Ascii.eqb_refl in Hp.
  - sapp. cbn [hasChar] in Hpre. apply orb_false_iff in Hpre as [_ Hpre].
    cbn [String.prefix]. destruct (ascii_dec p x); [by apply IH|done].
Qed.

(** ** The header of an array *)

Section Header.

Variable a : arrayText.
Hypothesis Ha : wellFormed a.

Lemma header_words :
  Forall word (tName a :: ":" :: tState a :: tType a :: tDevices a).
Proof.
  destruct Ha as (HN & HS & HT & _ & HD & _).
  repeat (constructor; [done|]). done.
Qed.

Lemma headerLine_Split :
  strings.Split (headerLine a) " "
  = tName a :: ":" :: tState a :: tType a :: tDevices a.
Proof.
  apply Split_Join; [done|].
  eapply Forall_impl; [apply header_words|]. apply word_no_blank.
Qed.

Lemma headerLine_TrimSpace : strings.TrimSpace (headerLine a) = headerLine a.
Proof. apply TrimSpace_words; [done|apply header_words]. Qed.

Lemma headerLine_no_LF : hasChar LF (headerLine a) = false.
Proof.
  apply hasChar_Join; [|done].
  eapply Forall_impl; [apply header_words|]. apply word_no_LF.
Qed.

Lemma headerLine_kept : raid.skipped (headerLine a) = false.
Proof.
  unfold raid.skipped. cbv zeta. rewrite headerLine_Split.
  destruct Ha as (HN & _ & _ & Hdev & _ & Hpers & Hunused & _).
  assert (headerLine a
          = (tName a +:+ String " "
               (strings.Join (":" :: tState a :: tType a :: tDevices a) " "))%string)
    as Hline by done.
  unfold strings.HasPrefix in *.
  rewrite Hline at 2 3. rewrite !prefix_before, Hpers, Hunused by done.
  assert (String.eqb (headerLine a) "" = false) as ->.
  { rewrite Hline. destruct HN as [HN _]. by destruct (tName a). }
  cbn [orb]. apply orb_false_iff. split.
  - apply Z.ltb_ge. unfold raid.len. cbn [length].
    destruct (tDevices a); [done|]. cbn [length]. lia.
  - done.
Qed.

Lemma header_described status rebuilding :
  arrayOf (raid.header (headerLine a)) status rebuilding
  = arrayOf (described a) status rebuilding.
Proof.
  unfold raid.header. cbv zeta. rewrite headerLine_Split.
  cbn [drop]. rewrite scanDevices_eq. cbn [app].
  unfold arrayOf, described. cbv zeta.
  cbn [raid.Name raid.Type_ raid.State raid.RaidLevel raid.Devices
       raid.Failed].
  done.
Qed.

End Header.

(** ** The loop over the lines of a file *)

Lemma skip_lines lines skip rest n raids :
  Forall otherLine skip ->
  raid.parseLines lines n (skip ++ rest) raids
  = raid.parseLines lines (n + length skip) rest raids.
Proof.
  intros Hskip. revert n. induction Hskip as [|l skip [_ Hl] Hskip IH]; intros n.
  - cbn [app length]. by rewrite Nat.add_0_r.
  - cbn [app raid.parseLines length]. rewrite parseLine_eq, Hl, IH.
    f_equal. lia.
Qed.

Lemma following_lookup before h (following after : list string) j :
  (j < length following)%nat ->
  (before ++ h :: following ++ after) !!! (length before + S j)%nat
  = following !!! j.
Proof.
  intros Hj. rewrite lookup_total_app_r by lia.
  replace (length before + S j - length before)%nat with (S j) by lia.
  change ((following ++ after) !!! j = following !!! j).
  by rewrite lookup_total_app_l.
Qed.

Lemma header_step a before after raids :
  wellFormed a ->
  raid.parseLines (before ++ headerLine a :: tFollowing a ++ after)
    (length before) (headerLine a :: tFollowing a ++ after) raids
  = raid.parseLines (before ++ headerLine a :: tFollowing a ++ after)
      (length before + 1 + length (tFollowing a)) after
      (raids ++ [described a]).
Proof.
  intros Ha. pose proof Ha as (_ & _ & _ & _ & _ & _ & _ & Hlen & Hother).
  cbn [raid.parseLines]. rewrite parseLine_eq, headerLine_TrimSpace by done.
  rewrite headerLine_kept by done.
  destruct (Nat.leb_spec
              (length (before ++ headerLine a :: tFollowing a ++ after))
              (length before + 3)) as [Hshort|_].
  { rewrite length_app in Hshort. cbn [length] in Hshort.
    rewrite length_app in Hshort. lia. }
  replace (length before + 1)%nat with (length before + S 0)%nat by lia.
  replace (length before + 2 + 1)%nat with (length before + S 2)%nat by lia.
  replace (length before + 2)%nat with (length before + S 1)%nat by lia.
  rewrite !following_lookup by lia.
  assert ((before ++ headerLine a :: tFollowing a ++ after)
            !!! (if strings.Contains (tFollowing a !!! 1%nat) "bitmap"
                 then (length before + S 2)%nat
                 else (length before + S 1)%nat)
          = tFollowing a
              !!! (if strings.Contains (tFollowing a !!! 1%nat) "bitmap"
                   then 2%nat else 1%nat)) as ->.
  { destruct (strings.Contains (tFollowing a !!! 1%nat) "bitmap");
      by rewrite following_lookup by lia. }
  rewrite header_described by done.
  assert (arrayOf (described a) (raid.parseStatusLine (tFollowing a !!! 0%nat))
            (strings.Contains
               (tFollowing a
                  !!! (if strings.Contains (tFollowing a !!! 1%nat) "bitmap"
                       then 2%nat else 1%nat)) "recovery")
          = described a) as -> by done.
  rewrite skip_lines by done. f_equal. lia.
Qed.

Lemma parse_blocks arrays before tail raids :
  Forall wellFormed arrays ->
  raid.parseLines (before ++ concat (blockLines <$> arrays) ++ tail)
    (length before) (concat (blockLines <$> arrays) ++ tail) raids
  = raid.parseLines (before ++ concat (blockLines <$> arrays) ++ tail)
      (length before + length (concat (blockLines <$> arrays))) tail
      (raids ++ (described <$> arrays)).
Proof.
  intros Harrays. revert before raids.
  induction Harrays as [|a arrays Ha Harrays IH]; intros before raids.
  - cbn. by rewrite app_nil_r, Nat.add_0_r.
  - cbn [fmap list_fmap concat]. unfold blockLines at 1 3 5.
    rewrite <- !app_comm_cons, <- !app_assoc. rewrite header_step by done.
    replace (before ++ headerLine a :: tFollowing a
                      ++ concat (blockLines <$> arrays) ++ tail)
      with ((before ++ headerLine a :: tFollowing a)
              ++ concat (blockLines <$> arrays) ++ tail)
      by (by rewrite <- app_assoc).
    replace (length before + 1 + length (tFollowing a))%nat
      with (length (before ++ headerLine a :: tFollowing a)).
    2:{ rewrite length_app. cbn [length]. lia. }
    rewrite IH. f_equal.
    + rewrite !length_app. unfold blockLines. cbn [length]. lia.
    + by rewrite <- app_assoc.
Qed.

Lemma rendered_lines preamble arrays tail :
  Forall otherLine preamble -> Forall wellFormed arrays ->
  Forall (fun l => hasChar LF l = false) tail ->
  Forall (fun l => hasChar LF l = false)
         (preamble ++ concat (blockLines <$> arrays) ++ tail).
Proof.
  intros Hpre Harrays Htail. apply Forall_app. split.
  - eapply Forall_impl; [exact Hpre|]. by intros l [Hl _].
  - apply Forall_app. split; [|done]. apply Forall_concat, Forall_fmap.
    eapply Forall_impl; [exact Harrays|]. intros a Ha. cbn.
    unfold blockLines. constructor; [by apply headerLine_no_LF|].
    destruct Ha as (_ & _ & _ & _ & _ & _ & _ & _ & Hother).
    eapply Forall_impl; [exact Hother|]. by intros l [Hl _].
Qed.

(** X18.  A file of arrays is parsed into the arrays it describes.
    When each header line reads [name : state type device ...], words
    without white space, at least one device, a name that does not
    start with ["Personalities"] or ["unused"], and is followed by at
    least three lines that are no headers, then [parseMdstat] returns,
    in the order of the file, one array for each header, with its name,
    state and type, the device names cut before their bracket, the
    indices of the devices marked [(F)] after a bracket, the status of
    the first line that follows and the recovery flag of the next
    line, or of the line after a bitmap line. *)
Theorem parseMdstat_render
    (preamble : list string) (arrays : list arrayText) :
  Forall otherLine preamble -> Forall wellFormed arrays ->
  raid.parseMdstat (render preamble arrays) = described <$> arrays.
Proof.
  intros Hpre Harrays. unfold raid.parseMdstat, render. cbv zeta. fold LF.
  destruct (decide (preamble ++ concat (blockLines <$> arrays) = []))
    as [Hnil|Hne].
  - rewrite Hnil. apply app_eq_nil in Hnil as [_ Hnil].
    destruct arrays as [|a arrays]; [done|]. done.
  - rewrite Split_Join; [|done|].
    + rewrite skip_lines by done. cbn [Nat.add].
      rewrite <- (app_nil_r (concat (blockLines <$> arrays))).
      by rewrite parse_blocks.
    + rewrite <- (app_nil_r (concat (blockLines <$> arrays))).
      by apply rendered_lines.
Qed.

Lemma parseMdstat_render_witness :
  raid.parseMdstat
    (render ["Personalities : [raid1] [raid6] [raid5] [raid4]"] [md0; md1])
  = described <$> [md0; md1].
Proof.
  apply parseMdstat_render.
  - repeat constructor.
  - repeat constructor; try discriminate.
Defined.

(** The arrays of that file. *)
Example parseMdstat_sample :
  raid.parseMdstat
    (render ["Personalities : [raid1] [raid6] [raid5] [raid4]"] [md0; md1])
  = [ raid.mkRaidInfo "md0" "raid1" "active" 1 ["sdb1"; "sda1"]
        [0] [1] [0] true;
      raid.mkRaidInfo "md1" "raid5" "active" 5 ["sdc1"; "sdb2"; "sda2"]
        [] [0; 1; 2] [] false ].
Proof. vm_compute. reflexivity. Qed.

(** X19.  A header that fewer than three lines follow ends the parsing:
    the array of the header is left out, and the arrays of the complete
    blocks before it are returned. *)
Theorem parseMdstat_truncated
    (preamble : list string) (arrays : list arrayText)
    (last : string) (rest : list string) :
  Forall otherLine preamble -> Forall wellFormed arrays ->
  raid.skipped (strings.TrimSpace last) = false ->
  Forall (fun l => hasChar LF l = false) (last :: rest) ->
  (length rest <= 2)%nat ->
  raid.parseMdstat
    (strings.Join (preamble ++ concat (blockLines <$> arrays) ++ last :: rest)
                  (String LF ""))
  = described <$> arrays.
Proof.
  intros Hpre Harrays Hlast Hrest Hlen. unfold raid.parseMdstat. cbv zeta.
  fold LF. rewrite Split_Join.
  - rewrite skip_lines by done. cbn [Nat.add].
    rewrite parse_blocks by done. cbn [raid.parseLines app].
    rewrite parseLine_eq, Hlast.
    destruct (Nat.leb_spec
                (length (preamble ++ concat (blockLines <$> arrays)
                           ++ last :: rest))
                (length preamble + length (concat (blockLines <$> arrays)) + 3))
      as [_|Hlong]; [done|].
    rewrite !length_app in Hlong. cbn [length] in Hlong. lia.
  - intros Hnil. apply app_eq_nil in Hnil as [_ Hnil].
    by apply app_eq_nil in Hnil as [_ Hnil].
  - by apply rendered_lines.
Qed.

Lemma parseMdstat_truncated_witness :
  raid.parseMdstat
    (strings.Join
       (["Personalities : [raid1]"] ++ concat (blockLines <$> [md0])
          ++ headerLine md1 :: ["      1464725760 blocks [3/3] [UUU]"; ""])
       (String LF ""))
  = described <$> [md0].
Proof.
  apply parseMdstat_truncated.
  - repeat constructor.
  - repeat constructor; try discriminate.
  - reflexivity.
  - repeat constructor.
  - cbn. lia.
Defined.
